(** * Maplist generator: the fetch pipeline of [maplist.py]

    A shallow embedding of [get_collection_item_ids],
    [get_published_file_details] and [generate_maplist], and the properties
    of the manifest they write.

    - JSON documents are the Python values [r.json()] returns.
    - A Python [str] is a [string]; one [ascii] stands for one character
      (code points below 256), and strings compare character by character.
    - The remote service is an oracle answering the k-th request of the
      process; the requests issued, the pacing sleeps and the filesystem are
      threaded through a state-and-exception monad.
    - [os.path] and the text layer's line separator depend on the platform
      and come in a [runtime] record. *)

From Stdlib Require Import Floats.SpecFloat Strings.Ascii.
From stdpp Require Import gmap strings list fin_maps pretty sorting.

Set Warnings "-register-all".
Set Default Proof Using "Type".

Local Open Scope string_scope.
Local Open Scope list_scope.

(** ** Python values *)

(** What [json.loads] builds: [None], [bool], [int], [float], [str], [list]
    and [dict] with [str] keys. *)
Inductive pyval :=
  | PyNone
  | PyBool (b : bool)
  | PyInt (z : Z)
  | PyFloat (f : spec_float)
  | PyStr (s : string)
  | PyList (l : list pyval)
  | PyDict (d : gmap string pyval).

(** The exceptions the pipeline can raise, by their Python class. *)
Inductive exn :=
  | ConnectionError                (* requests.exceptions.ConnectionError *)
  | ReqTimeout                     (* requests.exceptions.Timeout *)
  | HTTPError (status : Z)         (* raised by raise_for_status *)
  | JSONDecodeError                (* raised by r.json() *)
  | KeyError (key : pyval)
  | IndexError
  | TypeError
  | AttributeError
  | FileNotFoundError
  | FileExistsError
  | IsADirectoryError
  | UnicodeEncodeError.            (* raised by f.write *)

Inductive result (A : Type) :=
  | Ok (a : A)
  | Raise (e : exn).
Arguments Ok {A} a.
Arguments Raise {A} e.

Definition is_ok {A} (r : result A) : bool :=
  match r with Ok _ => true | Raise _ => false end.

Definition rbind {A B} (r : result A) (k : A → result B) : result B :=
  match r with Ok a => k a | Raise e => Raise e end.

Global Instance result_ret : MRet result := @Ok.
Global Instance result_bind : MBind result := λ A B k r, rbind r k.

(** The spec's error taxonomy, read on the exceptions the code raises:
    a transport error is a network failure, a timeout or a rejected HTTP
    status; a generic indexing fault is what subscripting raises. *)
Definition transport_error (e : exn) : bool :=
  match e with
  | ConnectionError | ReqTimeout | HTTPError _ => true
  | _ => false
  end.

Definition indexing_fault (e : exn) : bool :=
  match e with
  | KeyError _ | IndexError | TypeError => true
  | _ => false
  end.

(** *** Strings *)

Definition NL : string := String "010"%char "".

(** [str.isspace] on the characters below 256: TAB..CR, FS..US, space,
    NEL and NBSP. *)
Definition isspace (c : ascii) : bool :=
  let n := N_of_ascii c in
  ((9 <=? n) && (n <=? 13) || (28 <=? n) && (n <=? 32)
   || (n =? 133) || (n =? 160))%N.

Fixpoint lstrip (s : string) : string :=
  match s with
  | String c s' => if isspace c then lstrip s' else s
  | EmptyString => EmptyString
  end.

Definition rstrip (s : string) : string :=
  String.rev (lstrip (String.rev s)).

(** [s.strip()] *)
Definition strip (s : string) : string := rstrip (lstrip s).

(** ["\n".join(lines)] *)
Definition join_lines (lines : list string) : string :=
  String.concat NL lines.

(** [sorted] on a sequence of [str]: a stable sort by the character-wise
    order [String.le]. *)
Definition sorted (l : list string) : list string :=
  merge_sort String.le l.

(** *** Truth value, subscripting, iteration *)

Definition spec_float_is_zero (f : spec_float) : bool :=
  match f with S754_zero _ => true | _ => false end.

(** [bool(v)] *)
Definition truthy (v : pyval) : bool :=
  match v with
  | PyNone => false
  | PyBool b => b
  | PyInt z => negb (z =? 0)%Z
  | PyFloat f => negb (spec_float_is_zero f)
  | PyStr s => negb (bool_decide (s = ""))
  | PyList l => negb (bool_decide (length l = 0%nat))
  | PyDict d => negb (bool_decide (size d = 0%nat))
  end.

Fixpoint chars (s : string) : list pyval :=
  match s with
  | EmptyString => []
  | String c s' => PyStr (String c "") :: chars s'
  end.

(** Python's index normalisation: a negative index counts from the end. *)
Definition seq_index {A} (l : list A) (i : Z) : result A :=
  let n := Z.of_nat (length l) in
  let j := (if i <? 0 then i + n else i)%Z in
  if ((0 <=? j) && (j <? n))%Z
  then match l !! Z.to_nat j with Some x => Ok x | None => Raise IndexError end
  else Raise IndexError.

(** [v[k]] for a [str] or [int] subscript [k]. *)
Definition py_getitem (v k : pyval) : result pyval :=
  match v with
  | PyDict d =>
      match k with
      | PyStr s => match d !! s with Some x => Ok x | None => Raise (KeyError k) end
      | PyList _ | PyDict _ => Raise TypeError      (* unhashable key *)
      | _ => Raise (KeyError k)
      end
  | PyList l =>
      match k with
      | PyInt i => seq_index l i
      | PyBool b => seq_index l (if b then 1 else 0)%Z
      | _ => Raise TypeError
      end
  | PyStr s =>
      match k with
      | PyInt i => seq_index (chars s) i
      | PyBool b => seq_index (chars s) (if b then 1 else 0)%Z
      | _ => Raise TypeError
      end
  | _ => Raise TypeError                            (* not subscriptable *)
  end.

(** [v.get(k)] with the default [None]; only a [dict] has the method. *)
Definition py_get (v : pyval) (k : string) : result pyval :=
  match v with
  | PyDict d => Ok (default PyNone (d !! k))
  | _ => Raise AttributeError
  end.

(** [v.strip()]; only a [str] has the method. *)
Definition py_strip (v : pyval) : result string :=
  match v with
  | PyStr s => Ok (strip s)
  | _ => Raise AttributeError
  end.

(** What a [for] or [list.extend] walks: the elements of a [list], the
    characters of a [str], the keys of a [dict]. A [dict] is a finite map
    here, so its keys come in the order of the map and not, as in Python,
    in the order of the document: nothing below is stated about the order
    in which a [dict] is walked. *)
Definition py_iter (v : pyval) : result (list pyval) :=
  match v with
  | PyList l => Ok l
  | PyStr s => Ok (chars s)
  | PyDict d => Ok (PyStr <$> (map_to_list d).*1)
  | _ => Raise TypeError
  end.

(** ** The runtime and the world *)

(** What the platform decides: [repr] of a value that is not a [str],
    [os.path.join], [os.path.isabs] and [os.linesep]; and which characters
    of the alphabet stand for characters the UTF-8 codec refuses (Python's
    lone surrogates). *)
Record runtime := Runtime {
  py_repr : pyval → string;
  os_path_join : string → string → string;
  os_path_isabs : string → bool;
  os_linesep : string;
  codec_refuses : ascii → bool
}.

(** Whether [text.encode("utf-8")] raises: some character is refused. *)
Fixpoint unencodable (rt : runtime) (text : string) : bool :=
  match text with
  | EmptyString => false
  | String c text' => codec_refuses rt c || unencodable rt text'
  end.

(** [format(v)] as an f-string field does it: a [str] is itself, every
    other value is its [repr]. *)
Definition py_format (rt : runtime) (v : pyval) : string :=
  match v with
  | PyStr s => s
  | _ => py_repr rt v
  end.

(** A form-encoded POST: [requests.post(url, data=data, timeout=timeout)]. *)
Record request := Request {
  url : string;
  data : gmap string pyval;
  timeout : nat
}.

(** What the transport can come back with. [body] is what [r.json()] would
    return, [None] when the body is not JSON. *)
Inductive outcome :=
  | Unreachable
  | TimedOut
  | Reply (status : Z) (body : option pyval).

Record response := Response {
  status_code : Z;
  json_body : option pyval
}.

(** Directories and regular files, by the path the program names them. *)
Record filesystem := Filesystem {
  dirs : gset string;
  files : gmap string (list Byte.byte)
}.

Record world := World {
  posts : list request;      (* every request issued so far, oldest first *)
  naps : nat;                (* how often time.sleep(0.8) ran *)
  fs : filesystem
}.

(** A statement of the program: it may raise, and it changes the world
    either way. *)
Definition M (A : Type) : Type := world → result A * world.

Definition M_ret {A} (a : A) : M A := λ w, (Ok a, w).

Definition M_bind {A B} (k : A → M B) (m : M A) : M B := λ w,
  match m w with
  | (Ok a, w') => k a w'
  | (Raise e, w') => (Raise e, w')
  end.

Global Instance M_mret : MRet M := @M_ret.
Global Instance M_mbind : MBind M := @M_bind.

Definition lift {A} (r : result A) : M A := λ w, (r, w).

(** A [for] loop carrying the variables it updates. *)
Fixpoint for_each {A S} (xs : list A) (body : A → S → M S) (s : S) : M S :=
  match xs with
  | [] => mret s
  | x :: xs' => s' ← body x s; for_each xs' body s'
  end.

(** *** Encoding text for a file opened with [encoding="utf-8"] *)

(** The text layer writes every newline as [os.linesep]. *)
Fixpoint translate_newlines (sep s : string) : string :=
  match s with
  | EmptyString => EmptyString
  | String c s' =>
      (if Ascii.eqb c "010" then sep else String c "")
        +:+ translate_newlines sep s'
  end.

Definition utf8_char (c : ascii) : list Byte.byte :=
  let n := N_of_ascii c in
  if (n <? 128)%N then [byte_of_ascii c]
  else [byte_of_ascii (ascii_of_N (192 + n / 64));
        byte_of_ascii (ascii_of_N (128 + n mod 64))].

Fixpoint utf8_encode (s : string) : list Byte.byte :=
  match s with
  | EmptyString => []
  | String c s' => utf8_char c ++ utf8_encode s'
  end.

(** *** Python's [range] and slices *)

Fixpoint range_go (fuel i stop step : nat) : list nat :=
  match fuel with
  | O => []
  | S fuel' =>
      if bool_decide (i < stop)%nat
      then i :: range_go fuel' (i + step) stop step
      else []
  end.

(** [range(start, stop, step)] for a positive [step]; [stop] iterations
    are always enough. *)
Definition range (start stop step : nat) : list nat :=
  range_go stop start stop step.

(** [l[lo:hi]] *)
Definition slice {A} (l : list A) (lo hi : nat) : list A :=
  take (hi - lo) (drop lo l).

(** [enumerate(l)] *)
Definition enumerate {A} (l : list A) : list (nat * A) :=
  imap (λ i x, (i, x)) l.

(** *** POSIX paths, for concrete runs *)

Definition starts_with_slash (s : string) : bool :=
  match s with
  | String c _ => Ascii.eqb c "/"
  | EmptyString => false
  end.

(** [posixpath.join(a, b)] *)
Definition posix_join (a b : string) : string :=
  if starts_with_slash b then b
  else if bool_decide (a = "") || starts_with_slash (String.rev a) then a +:+ b
  else a +:+ "/" +:+ b.

(** [posixpath.isabs] *)
Definition posix_isabs (s : string) : bool := starts_with_slash s.

(** [repr] of [None], a [bool] and an [int]; the empty string stands in for
    the values left out, which no run below formats. *)
Definition repr_scalar (v : pyval) : string :=
  match v with
  | PyNone => "None"
  | PyBool true => "True"
  | PyBool false => "False"
  | PyInt z => pretty z
  | _ => ""
  end.

Definition posix : runtime :=
  Runtime repr_scalar posix_join posix_isabs NL (λ _, false).

(** ** The program *)

Definition STEAM_COLLECTION_API : string :=
  "https://api.steampowered.com/ISteamRemoteStorage/GetCollectionDetails/v1/".
Definition STEAM_DETAILS_API : string :=
  "https://api.steampowered.com/ISteamRemoteStorage/GetPublishedFileDetails/v1/".
Definition BATCH_SIZE : nat := 50.

(** The form of one detail request: [itemcount] and one positional field
    per member of the batch. *)
Definition id_field (idx : nat) : string :=
  "publishedfileids[" +:+ pretty idx +:+ "]".

Definition details_data (batch : list pyval) : gmap string pyval :=
  foldl (λ d p, <[id_field p.1 := p.2]> d)
        {["itemcount" := PyStr (pretty (length batch))]}
        (enumerate batch).

Definition details_request (batch : list pyval) : request :=
  Request STEAM_DETAILS_API (details_data batch) 30.

Definition collection_request (collection_id : string) : request :=
  Request STEAM_COLLECTION_API
    (<["publishedfileids[0]" := PyStr collection_id]>
       {["collectioncount" := PyStr "1"]}) 30.

(** [r.raise_for_status()] rejects the 4xx and 5xx statuses and no others. *)
Definition raise_for_status (r : response) : result unit :=
  if ((400 <=? status_code r) && (status_code r <? 600))%Z
  then Raise (HTTPError (status_code r))
  else Ok ().

(** [r.json()] *)
Definition json (r : response) : result pyval :=
  match json_body r with
  | Some v => Ok v
  | None => Raise JSONDecodeError
  end.

(** [[c["publishedfileid"] for c in j["response"]["collectiondetails"][0]["children"]]] *)
Definition children_ids (j : pyval) : result (list pyval) :=
  resp ← py_getitem j (PyStr "response");
  cd ← py_getitem resp (PyStr "collectiondetails");
  c0 ← py_getitem cd (PyInt 0);
  ch ← py_getitem c0 (PyStr "children");
  cs ← py_iter ch;
  mapM (λ c, py_getitem c (PyStr "publishedfileid")) cs.

(** The iterable [r.json()["response"]["publishedfiledetails"]], as
    [list.extend] walks it. *)
Definition published_file_details (j : pyval) : result (list pyval) :=
  resp ← py_getitem j (PyStr "response");
  l ← py_getitem resp (PyStr "publishedfiledetails");
  py_iter l.

Section Pipeline.
Variable rt : runtime.
(** [remote k rq] answers request [rq] when it is the [k]-th request the
    process issues. *)
Variable remote : nat → request → outcome.

Definition requests_post (rq : request) : M response := λ w,
  let w' := World (posts w ++ [rq]) (naps w) (fs w) in
  match remote (length (posts w)) rq with
  | Unreachable => (Raise ConnectionError, w')
  | TimedOut => (Raise ReqTimeout, w')
  | Reply s b => (Ok (Response s b), w')
  end.

Definition time_sleep : M unit := λ w,
  (Ok (), World (posts w) (S (naps w)) (fs w)).

(** [os.makedirs(d, exist_ok=True)] *)
Definition os_makedirs (d : string) : M unit := λ w,
  if bool_decide (d = "") then (Raise FileNotFoundError, w)
  else if bool_decide (d ∈ dirs (fs w)) then (Ok (), w)
  else if bool_decide (d ∈ dom (files (fs w))) then (Raise FileExistsError, w)
  else (Ok (),
        World (posts w) (naps w)
              (Filesystem ({[d]} ∪ dirs (fs w)) (files (fs w)))).

(** [open(p, "w", encoding="utf-8")]: the file is created or cut to
    nothing; a directory cannot be opened ([IsADirectoryError] on POSIX,
    an [OSError] on every platform). The handle is the path. *)
Definition open_w (p : string) : M string := λ w,
  if bool_decide (p ∈ dirs (fs w)) then (Raise IsADirectoryError, w)
  else (Ok p,
        World (posts w) (naps w)
              (Filesystem (dirs (fs w)) (<[p := []]> (files (fs w))))).

(** [f.write(text)]: the text is encoded first, and a text the codec
    refuses raises [UnicodeEncodeError] with nothing of it written; the file
    keeps what was written to it before. *)
Definition file_write (f text : string) : M unit := λ w,
  if unencodable rt text then (Raise UnicodeEncodeError, w)
  else
    (Ok (),
     World (posts w) (naps w)
           (Filesystem (dirs (fs w))
              (alter (λ old, old ++ utf8_encode
                                      (translate_newlines (os_linesep rt) text))
                     f (files (fs w))))).

Definition get_collection_item_ids (collection_id : string) : M (list pyval) :=
  r ← requests_post (collection_request collection_id);
  _ ← lift (raise_for_status r);
  j ← lift (json r);
  lift (children_ids j).

(** The body of the loop in [get_published_file_details], at index [i]
    with [result] as it stands. *)
Definition batch_step (ids : list pyval) (i : nat) (result : list pyval)
  : M (list pyval) :=
  let batch := slice ids i (i + BATCH_SIZE) in
  r ← requests_post (details_request batch);
  _ ← lift (raise_for_status r);
  j ← lift (json r);
  more ← lift (published_file_details j);
  _ ← time_sleep;
  mret (result ++ more).

Definition get_published_file_details (ids : list pyval) : M (list pyval) :=
  for_each (range 0 (length ids) BATCH_SIZE) (batch_step ids) [].

(** One turn of the generator in [generate_maplist]: [None] when the
    [if] drops the item. *)
Definition manifest_entry (item : pyval) : result (option string) :=
  t ← py_get item "title";
  if truthy t then
    title ← py_getitem item (PyStr "title");
    s ← py_strip title;
    fid ← py_getitem item (PyStr "publishedfileid");
    mret (Some (s +:+ ":" +:+ py_format rt fid))
  else mret None.

Fixpoint manifest_entries (items : list pyval) : result (list string) :=
  match items with
  | [] => mret []
  | item :: rest =>
      e ← manifest_entry item;
      es ← manifest_entries rest;
      mret (option_list e ++ es)
  end.

Definition manifest_lines (items : list pyval) : result (list string) :=
  es ← manifest_entries items;
  mret (sorted es).

Definition generate_maplist (collection_id output_dir : string) : M string :=
  ids ← get_collection_item_ids collection_id;
  items ← get_published_file_details ids;
  lines ← lift (manifest_lines items);
  _ ← os_makedirs output_dir;
  let path := os_path_join rt output_dir "maplist.txt" in
  f ← open_w path;
  _ ← file_write f (join_lines lines);
  mret path.

(** Lines 62 to 68 of [generate_maplist] on their own: what happens once
    [lines] is there. *)
Definition save (output_dir : string) (lines : list string) : M string :=
  _ ← os_makedirs output_dir;
  let path := os_path_join rt output_dir "maplist.txt" in
  f ← open_w path;
  _ ← file_write f (join_lines lines);
  mret path.
End Pipeline.

(** ** Vocabulary of the specification *)

Definition div_ceil (n b : nat) : nat := (n + b - 1) / b.

(** The batches the loop of [get_published_file_details] cuts, one per
    index of its [range]. *)
Definition batches (ids : list pyval) : list (list pyval) :=
  (λ i, slice ids i (i + BATCH_SIZE)) <$> range 0 (length ids) BATCH_SIZE.

(** The fields one batch adds to a form [d]. *)
Definition fill (d : gmap string pyval) (batch : list pyval)
  : gmap string pyval :=
  foldl (λ d p, <[id_field p.1 := p.2]> d) d (enumerate batch).

(** The requests a piece of the program issued, given the world before and
    after it. *)
Definition issued (w w' : world) : list request :=
  drop (length (posts w)) (posts w').

(** A request fails in transport: no connection, a timeout, or a status
    [raise_for_status] rejects. *)
Definition failed (o : outcome) : bool :=
  match o with
  | Unreachable | TimedOut => true
  | Reply s _ => ((400 <=? s) && (s <? 600))%Z
  end.

Definition reply_of (o : outcome) : result response :=
  match o with
  | Unreachable => Raise ConnectionError
  | TimedOut => Raise ReqTimeout
  | Reply s b => Ok (Response s b)
  end.

(** What an outcome of the collection request makes of
    [get_collection_item_ids]. *)
Definition ids_of (o : outcome) : result (list pyval) :=
  r ← reply_of o; _ ← raise_for_status r; j ← json r; children_ids j.

(** What an outcome of a detail request adds to [result]. *)
Definition details_of (o : outcome) : result (list pyval) :=
  r ← reply_of o; _ ← raise_for_status r; j ← json r; published_file_details j.

(** The loop of [get_published_file_details] without its world: the first
    of the batches [bs] is request number [k]; the result comes with the
    number of requests issued. *)
Fixpoint collect (remote : nat → request → outcome) (k : nat)
    (bs : list (list pyval)) (acc : list pyval) : result (list pyval) * nat :=
  match bs with
  | [] => (Ok acc, 0%nat)
  | b :: bs' =>
      match details_of (remote k (details_request b)) with
      | Ok more =>
          let '(r, m) := collect remote (S k) bs' (acc ++ more) in (r, S m)
      | Raise e => (Raise e, 1%nat)
      end
  end.

(** The bytes [generate_maplist] writes for [lines]. *)
Definition manifest_bytes (rt : runtime) (lines : list string) : list Byte.byte :=
  utf8_encode (translate_newlines (os_linesep rt) (join_lines lines)).

(** The value at [response.collectiondetails[0].children], when the
    document has that shape. *)
Definition children_of (j : pyval) : option pyval :=
  match j with
  | PyDict d =>
      match d !! "response" with
      | Some (PyDict r) =>
          match r !! "collectiondetails" with
          | Some (PyList (PyDict c :: _)) => c !! "children"
          | _ => None
          end
      | _ => None
      end
  | _ => None
  end.

(** A child entry carrying a [publishedfileid]. *)
Definition member_id (c : pyval) : option pyval :=
  match c with
  | PyDict d => d !! "publishedfileid"
  | _ => None
  end.

(** A member record as the data model has it: a title that may be missing,
    an id, and whatever other fields the service sends along. *)
Record member_record := MemberRecord {
  mr_title : option string;
  mr_id : pyval;
  mr_rest : gmap string pyval
}.

(** The JSON object of a member record. *)
Definition record_doc (r : member_record) : pyval :=
  PyDict (<["publishedfileid" := mr_id r]>
            match mr_title r with
            | Some t => <["title" := PyStr t]> (mr_rest r)
            | None => delete "title" (mr_rest r)
            end).

(** The manifest line of a member record: none without a title or with the
    empty title, else the trimmed title, a colon and the id. *)
Definition manifest_line (rt : runtime) (r : member_record) : option string :=
  match mr_title r with
  | None => None
  | Some t =>
      if bool_decide (t = "") then None
      else Some (strip t +:+ ":" +:+ py_format rt (mr_id r))
  end.

(** Two outcomes that differ at most in the order of the records under
    [response.publishedfiledetails]. *)
Inductive same_up_to_order : outcome → outcome → Prop :=
  | same_outcome o : same_up_to_order o o
  | same_records s d r l1 l2 :
      l1 ≡ₚ l2 →
      same_up_to_order
        (Reply s (Some (PyDict (<["response" :=
           PyDict (<["publishedfiledetails" := PyList l1]> r)]> d))))
        (Reply s (Some (PyDict (<["response" :=
           PyDict (<["publishedfiledetails" := PyList l2]> r)]> d)))).

(** ** Sample documents and services, for concrete runs *)

Definition member (t i : string) : pyval :=
  PyDict (<["title" := PyStr t]> {["publishedfileid" := PyStr i]}).

Definition collection_doc (ids : list string) : pyval :=
  PyDict {["response" := PyDict {["collectiondetails" := PyList
    [PyDict {["children" := PyList
       ((λ i, PyDict {["publishedfileid" := PyStr i]}) <$> ids)]}]]}]}.

Definition details_doc (l : list pyval) : pyval :=
  PyDict {["response" := PyDict {["publishedfiledetails" := PyList l]}]}.

(** A service that answers the collection endpoint with [coll] and the
    detail endpoint with [det], whatever the request number. *)
Definition service (coll det : outcome) : nat → request → outcome :=
  λ _ rq, if bool_decide (url rq = STEAM_COLLECTION_API) then coll else det.

Definition fresh : world := World [] 0 (Filesystem ∅ ∅).

(** ** The configuration file and the form ([save_config], [run]) *)

Definition APP_NAME : string := "maplist_generator".

(** What the process is started with: [os.getenv("APPDATA")], [sys.argv[0]]
    and the platform's [os.path.dirname]. *)
Record process := Process {
  appdata : string;
  argv0 : string;
  os_path_dirname : string → string
}.

Definition DQ : string := String "034"%char "".
Definition BS : string := String "092"%char "".

Definition hex_digit (n : N) : ascii :=
  ascii_of_N (if (n <? 10)%N then 48 + n else 87 + n).

(** How [json.dumps(..., ensure_ascii=False)] writes one character of a
    string: the quote, the backslash and the control characters are
    escaped, every other character stands for itself. *)
Definition json_escape_char (c : ascii) : string :=
  let n := N_of_ascii c in
  if (n =? 34)%N then BS +:+ DQ
  else if (n =? 92)%N then BS +:+ BS
  else if (n =? 10)%N then BS +:+ "n"
  else if (n =? 13)%N then BS +:+ "r"
  else if (n =? 9)%N then BS +:+ "t"
  else if (n =? 8)%N then BS +:+ "b"
  else if (n =? 12)%N then BS +:+ "f"
  else if (n <? 32)%N
       then BS +:+ "u00" +:+ String (hex_digit (n / 16))
                                    (String (hex_digit (n mod 16)) "")
  else String c "".

Fixpoint json_escape (s : string) : string :=
  match s with
  | EmptyString => EmptyString
  | String c s' => json_escape_char c +:+ json_escape s'
  end.

Definition json_str (s : string) : string := DQ +:+ json_escape s +:+ DQ.

Definition json_item (kv : string * string) : string :=
  "  " +:+ json_str kv.1 +:+ ": " +:+ json_str kv.2.

(** [json.dumps(d, indent=2, ensure_ascii=False)] for a [dict] from [str]
    to [str], its items in insertion order. *)
Definition json_dumps_indent2 (d : list (string * string)) : string :=
  match d with
  | [] => "{}"
  | _ => "{" +:+ NL +:+ String.concat ("," +:+ NL) (json_item <$> d)
             +:+ NL +:+ "}"
  end.

(** The pieces [json.dump(d, f, indent=2, ensure_ascii=False)] hands to
    [f.write], one call each: the brace and the first indentation, then per
    item the separator (but for the first), the key, the colon and the
    value, then the closing line break and brace. *)
Fixpoint json_item_chunks (first : bool) (d : list (string * string))
  : list string :=
  match d with
  | [] => []
  | kv :: d' =>
      (if first then [] else ["," +:+ NL +:+ "  "])
        ++ [json_str kv.1; ": "; json_str kv.2]
        ++ json_item_chunks false d'
  end.

Definition json_chunks_indent2 (d : list (string * string)) : list string :=
  match d with
  | [] => ["{}"]
  | _ => ["{"; NL +:+ "  "] ++ json_item_chunks true d ++ [NL; "}"]
  end.

(** [fg] of the status label. *)
Inductive colour := TEXT | SUCCESS | ERROR.

(** The texts [status_var] is set to: "Ready", "Collection ID is required
    (use Paste)", "Working...", "Done. Saved to: {result}" and
    "Error:\n{e}". *)
Inductive status_text :=
  | StatusReady
  | StatusRequired
  | StatusWorking
  | StatusDone (result : string)
  | StatusError (e : exn).

(** The variables of the window [run] builds. *)
Record form := Form {
  collection_var : string;
  path_var : string;
  status_var : status_text;
  status_fg : colour
}.

(** [c.isdigit()] on the characters below 256: the decimal digits and the
    superscripts two, three and one. *)
Definition isdigit (c : ascii) : bool :=
  let n := N_of_ascii c in
  ((48 <=? n) && (n <=? 57) || (n =? 178) || (n =? 179) || (n =? 185))%N.

(** ["".join(c for c in text if c.isdigit())] *)
Fixpoint digits_of (text : string) : string :=
  match text with
  | EmptyString => EmptyString
  | String c text' =>
      if isdigit c then String c (digits_of text') else digits_of text'
  end.

(** [paste_collection_id]; the clipboard is [None] when
    [root.clipboard_get()] raises [TclError]. *)
Definition paste_collection_id (clipboard : option string) (g : form) : form :=
  match clipboard with
  | Some text =>
      Form (digits_of text) (path_var g) (status_var g) (status_fg g)
  | None => g
  end.

Section App.
Variable rt : runtime.
Variable ps : process.
Variable remote : nat → request → outcome.

Definition CONFIG_DIR : string := os_path_join rt (appdata ps) APP_NAME.
Definition CONFIG_PATH : string := os_path_join rt CONFIG_DIR "config.json".

(** [json.dump(d, f, indent=2, ensure_ascii=False)]: one [f.write] per
    piece, so a piece the codec refuses leaves the pieces before it in the
    file. *)
Definition json_dump (d : list (string * string)) (f : string) : M unit :=
  for_each (json_chunks_indent2 d) (λ chunk _, file_write rt f chunk) ().

(** [save_config] *)
Definition save_config (collection_id output_path : string) : M unit :=
  _ ← os_makedirs CONFIG_DIR;
  f ← open_w CONFIG_PATH;
  json_dump [("collection_id", collection_id); ("output_path", output_path)] f.

(** The callback [generate] of the button: the form and the world after a
    click. Redrawing ([root.update_idletasks()]) is left out. *)
Definition generate (g : form) (w : world) : form * world :=
  if bool_decide (collection_var g = "")
  then (Form (collection_var g) (path_var g) StatusRequired ERROR, w)
  else
    let g1 := Form (collection_var g) (path_var g) StatusWorking TEXT in
    let out := if bool_decide (path_var g1 = "")
               then os_path_dirname ps (argv0 ps) else path_var g1 in
    match generate_maplist rt remote (collection_var g1) out w with
    | (Ok result, w1) =>
        match save_config (collection_var g1) (path_var g1) w1 with
        | (Ok _, w2) =>
            (Form (collection_var g1) (path_var g1) (StatusDone result) SUCCESS,
             w2)
        | (Raise e, w2) =>
            (Form (collection_var g1) (path_var g1) (StatusError e) ERROR, w2)
        end
    | (Raise e, w1) =>
        (Form (collection_var g1) (path_var g1) (StatusError e) ERROR, w1)
    end.
End App.

(** The bytes [save_config] writes. *)
Definition config_bytes (rt : runtime) (collection_id output_path : string)
  : list Byte.byte :=
  utf8_encode
    (translate_newlines (os_linesep rt)
       (json_dumps_indent2
          [("collection_id", collection_id); ("output_path", output_path)])).

(** The directory [generate] hands to [generate_maplist]:
    [path_var.get() or os.path.dirname(sys.argv[0])]. *)
Definition output_dir_of (ps : process) (g : form) : string :=
  if bool_decide (path_var g = "") then os_path_dirname ps (argv0 ps)
  else path_var g.

(** *** POSIX [dirname] and a process, for concrete runs *)

Fixpoint drop_to_slash (s : string) : string :=
  match s with
  | EmptyString => EmptyString
  | String c s' => if Ascii.eqb c "/" then s else drop_to_slash s'
  end.

Fixpoint lstrip_slashes (s : string) : string :=
  match s with
  | String c s' => if Ascii.eqb c "/" then lstrip_slashes s' else s
  | EmptyString => EmptyString
  end.

(** [posixpath.dirname(p)]: the part up to the last slash, without its
    trailing slashes unless it is made of slashes only. *)
Definition posix_dirname (p : string) : string :=
  let rhead := drop_to_slash (String.rev p) in
  if bool_decide (lstrip_slashes rhead = "") then String.rev rhead
  else String.rev (lstrip_slashes rhead).

Definition posix_process : process :=
  Process "/home/steam/.config" "/opt/maplist/maplist.py" posix_dirname.

(** The records of a reply that lists them in a JSON array under
    [response.publishedfiledetails], as the service does. *)
Definition reply_records (o : outcome) : option (list pyval) :=
  match o with
  | Reply _ (Some (PyDict d)) =>
      match d !! "response" with
      | Some (PyDict r) =>
          match r !! "publishedfiledetails" with
          | Some (PyList l) => Some l
          | _ => None
          end
      | _ => None
      end
  | _ => None
  end.

(** The errors of fetching and of building the lines: those of [requests],
    of [r.json()], of subscripting and of a missing method. *)
Definition fetch_or_build_error (e : exn) : bool :=
  match e with
  | ConnectionError | ReqTimeout | HTTPError _ | JSONDecodeError
  | KeyError _ | IndexError | TypeError | AttributeError => true
  | _ => false
  end.

(** The bytes the text layer writes for an encodable [text]. *)
Definition encode_text (rt : runtime) (text : string) : list Byte.byte :=
  utf8_encode (translate_newlines (os_linesep rt) text).

(** The pieces before the first one the codec refuses. *)
Fixpoint writable_prefix (rt : runtime) (chunks : list string) : list string :=
  match chunks with
  | [] => []
  | chunk :: chunks' =>
      if unencodable rt chunk then [] else chunk :: writable_prefix rt chunks'
  end.

(** POSIX, with the character 255 standing for a lone surrogate. *)
Definition posix_with_surrogate : runtime :=
  Runtime repr_scalar posix_join posix_isabs NL (λ c, Ascii.eqb c "255").

(** An error of the filesystem calls, [os.makedirs] and [open]. *)
Definition filesystem_error (e : exn) : bool :=
  match e with
  | FileNotFoundError | FileExistsError | IsADirectoryError => true
  | _ => false
  end.

(** Whether the generator of [generate_maplist] gets past a record: it
    must be a [dict], and if its title counts as true the title must be a
    [str] and the id must be there. *)
Definition renderable (item : pyval) : bool :=
  match item with
  | PyDict d =>
      match d !! "title" with
      | Some (PyStr t) =>
          bool_decide (t = "") || bool_decide (is_Some (d !! "publishedfileid"))
      | Some t => negb (truthy t)
      | None => true
      end
  | _ => false
  end.

(** * Properties *)

(** ** Batching *)

Lemma div_ceil_0 b : div_ceil 0 b = 0%nat.
Proof.
  unfold div_ceil. destruct b as [|b]; [done|].
  apply Nat.div_small. lia.
Qed.

Lemma div_ceil_step n b :
  (0 < b)%nat → (0 < n)%nat → div_ceil n b = S (div_ceil (n - b) b).
Proof.
  intros Hb Hn. unfold div_ceil.
  destruct (decide (n < b)%nat) as [Hlt|Hge].
  - replace (n - b)%nat with 0%nat by lia.
    rewrite (Nat.div_small (0 + b - 1) b) by lia.
    assert (H : (n + b - 1 = 1 * b + (n - 1))%nat) by lia.
    rewrite H, Nat.div_add_l by lia. rewrite Nat.div_small by lia. lia.
  - assert (H : (n + b - 1 = 1 * b + (n - b + b - 1))%nat) by lia.
    rewrite H, Nat.div_add_l by lia. lia.
Qed.

Lemma range_go_spec step fuel i stop :
  (0 < step)%nat → (stop ≤ i + fuel * step)%nat →
  range_go fuel i stop step
  = (λ k, i + k * step)%nat <$> seq 0 (div_ceil (stop - i) step).
Proof.
  intros Hstep. revert i. induction fuel as [|fuel IH]; intros i Hfuel.
  - replace (stop - i)%nat with 0%nat by lia. by rewrite div_ceil_0.
  - simpl. case_bool_decide as Hlt.
    + rewrite (div_ceil_step (stop - i) step) by lia.
      rewrite IH by lia. simpl. f_equal; [lia|].
      rewrite <-fmap_S_seq, <-list_fmap_compose.
      replace (stop - i - step)%nat with (stop - (i + step))%nat by lia.
      apply list_fmap_ext. intros _ k _. simpl. lia.
    + replace (stop - i)%nat with 0%nat by lia. by rewrite div_ceil_0.
Qed.

Lemma range_spec n step :
  (0 < step)%nat →
  range 0 n step = (λ k, k * step)%nat <$> seq 0 (div_ceil n step).
Proof.
  intros Hstep. unfold range. rewrite range_go_spec by nia.
  by rewrite Nat.sub_0_r.
Qed.

Lemma slice_batch (ids : list pyval) i b :
  slice ids i (i + b) = take b (drop i ids).
Proof. unfold slice. f_equal. lia. Qed.

Lemma batches_spec ids :
  batches ids
  = (λ k, take BATCH_SIZE (drop (k * BATCH_SIZE) ids))
      <$> seq 0 (div_ceil (length ids) BATCH_SIZE).
Proof.
  unfold batches. rewrite range_spec by (unfold BATCH_SIZE; lia).
  rewrite <-list_fmap_compose. apply list_fmap_ext.
  intros _ k _. simpl. apply slice_batch.
Qed.


Lemma div_ceil_tight n b k :
  (0 < b)%nat → (k < div_ceil n b)%nat → (k * b < n)%nat.
Proof.
  intros Hb. unfold div_ceil. intros Hk.
  pose proof (Nat.div_mod (n + b - 1) b) as Hdm.
  pose proof (Nat.mod_upper_bound (n + b - 1) b) as Hub. nia.
Qed.



Lemma batches_length ids :
  length (batches ids) = div_ceil (length ids) BATCH_SIZE.
Proof. by rewrite batches_spec, length_fmap, length_seq. Qed.


Lemma list_ascii_app s1 s2 :
  String.list_ascii_of_string (s1 +:+ s2)
  = String.list_ascii_of_string s1 ++ String.list_ascii_of_string s2.
Proof. induction s1 as [|c s1 IH]; [done|]. cbn. by rewrite <-IH. Qed.

Lemma string_app_inj_r s1 s2 t : s1 +:+ t = s2 +:+ t → s1 = s2.
Proof.
  intros H%(f_equal String.list_ascii_of_string).
  rewrite !list_ascii_app in H. apply app_inv_tail in H.
  apply (f_equal String.string_of_list_ascii) in H.
  by rewrite !String.string_of_list_ascii_of_string in H.
Qed.

Global Instance id_field_inj : Inj (=) (=) id_field.
Proof.
  intros i j H. unfold id_field in H.
  apply (inj (String.app _)) in H.
  apply string_app_inj_r in H. by apply (inj pretty) in H.
Qed.

Lemma id_field_not_itemcount idx : id_field idx ≠ "itemcount".
Proof. unfold id_field. cbn. discriminate. Qed.

Lemma fill_snoc d batch x :
  fill d (batch ++ [x]) = <[id_field (length batch) := x]> (fill d batch).
Proof.
  unfold fill, enumerate. rewrite imap_app, foldl_app. simpl.
  by rewrite Nat.add_0_r.
Qed.

Lemma fill_lookup_field d batch idx :
  fill d batch !! id_field idx
  = if bool_decide (idx < length batch)%nat then batch !! idx
    else d !! id_field idx.
Proof.
  induction batch as [|x batch IH] using rev_ind.
  - by rewrite bool_decide_false by (simpl; lia).
  - rewrite fill_snoc, length_app. simpl.
    destruct (decide (idx = length batch)) as [->|Hne].
    + rewrite lookup_insert_eq, bool_decide_true by lia.
      by rewrite lookup_app_r, Nat.sub_diag.
    + rewrite lookup_insert_ne by (intros ?%(inj id_field); done).
      rewrite IH. repeat case_bool_decide; try lia; [|done].
      by rewrite lookup_app_l.
Qed.


Lemma fill_size d batch :
  (∀ idx, d !! id_field idx = None) →
  size (fill d batch) = (size d + length batch)%nat.
Proof.
  intros Hd. induction batch as [|x batch IH] using rev_ind.
  - simpl. unfold fill. simpl. lia.
  - rewrite fill_snoc, map_size_insert_None, IH, length_app; [simpl; lia|].
    rewrite fill_lookup_field, bool_decide_false by lia. apply Hd.
Qed.



Lemma details_data_size batch :
  size (details_data batch) = S (length batch).
Proof.
  change (details_data batch) with
    (fill {["itemcount" := PyStr (pretty (length batch))]} batch).
  rewrite fill_size; [by rewrite map_size_singleton|].
  intros idx. apply lookup_singleton_ne.
  intros H. by eapply id_field_not_itemcount.
Qed.

(** ** The pipeline, step by step *)

Ltac run_M :=
  unfold mbind, mret, M_mbind, M_mret, M_bind, M_ret, lift,
    result_bind, result_ret, rbind.

Section Steps.
Variable rt : runtime.
Variable remote : nat → request → outcome.

Lemma get_collection_item_ids_run collection_id w :
  get_collection_item_ids remote collection_id w
  = (ids_of (remote (length (posts w)) (collection_request collection_id)),
     World (posts w ++ [collection_request collection_id]) (naps w) (fs w)).
Proof.
  unfold get_collection_item_ids, ids_of, requests_post. run_M.
  destruct (remote _ _) as [| |s b]; simpl; try done.
  destruct (raise_for_status _); simpl; [|done].
  by destruct (json _).
Qed.

Lemma batch_step_run ids i acc w :
  batch_step remote ids i acc w
  = let rq := details_request (slice ids i (i + BATCH_SIZE)) in
    match details_of (remote (length (posts w)) rq) with
    | Ok more =>
        (Ok (acc ++ more), World (posts w ++ [rq]) (S (naps w)) (fs w))
    | Raise e => (Raise e, World (posts w ++ [rq]) (naps w) (fs w))
    end.
Proof.
  unfold batch_step, details_of, requests_post, time_sleep. run_M.
  destruct (remote _ _) as [| |s b]; simpl; try done.
  destruct (raise_for_status _); simpl; [|done].
  destruct (json _); simpl; [|done].
  by destruct (published_file_details _).
Qed.

Lemma collect_count k bs acc :
  let '(r, m) := collect remote k bs acc in
  (m ≤ length bs)%nat ∧ if is_ok r then m = length bs else (1 ≤ m)%nat.
Proof.
  revert k acc. induction bs as [|b bs IH]; intros k acc; simpl; [done|].
  destruct (details_of _) as [more|e]; simpl; [|lia].
  specialize (IH (S k) (acc ++ more)).
  destruct (collect _ _ _ _) as [r m]. destruct r; simpl in *; lia.
Qed.

Lemma for_each_collect ids starts acc w :
  for_each starts (batch_step remote ids) acc w
  = let bs := (λ i, slice ids i (i + BATCH_SIZE)) <$> starts in
    let '(r, m) := collect remote (length (posts w)) bs acc in
    (r, World (posts w ++ (details_request <$> take m bs))
              (naps w + if is_ok r then m else pred m)
              (fs w)).
Proof.
  revert acc w. induction starts as [|i starts IH]; intros acc w.
  - simpl. run_M. destruct w as [p n f]. simpl.
    by rewrite app_nil_r, Nat.add_0_r.
  - cbn [for_each fmap list_fmap collect]. run_M.
    fold (@for_each nat (list pyval)).
    rewrite batch_step_run. cbv zeta.
    destruct (details_of _) as [more|e]; simpl.
    + rewrite IH. simpl. rewrite length_app. simpl.
      rewrite Nat.add_1_r.
      pose proof (collect_count (S (length (posts w)))
                    ((λ i, slice ids i (i + BATCH_SIZE)) <$> starts)
                    (acc ++ more)) as Hm.
      destruct (collect _ _ _ _) as [r m]. simpl.
      rewrite <-app_assoc. simpl. do 2 f_equal.
      destruct r; simpl in *; lia.
    + by rewrite Nat.add_0_r.
Qed.

Lemma get_published_file_details_run ids w :
  get_published_file_details remote ids w
  = let '(r, m) := collect remote (length (posts w)) (batches ids) [] in
    (r, World (posts w ++ (details_request <$> take m (batches ids)))
              (naps w + if is_ok r then m else pred m)
              (fs w)).
Proof. apply for_each_collect. Qed.

Lemma generate_maplist_run collection_id output_dir w :
  generate_maplist rt remote collection_id output_dir w
  = match get_collection_item_ids remote collection_id w with
    | (Raise e, w1) => (Raise e, w1)
    | (Ok ids, w1) =>
        match get_published_file_details remote ids w1 with
        | (Raise e, w2) => (Raise e, w2)
        | (Ok items, w2) =>
            match manifest_lines rt items with
            | Raise e => (Raise e, w2)
            | Ok lines => save rt output_dir lines w2
            end
        end
    end.
Proof.
  unfold generate_maplist, save. run_M.
  destruct (get_collection_item_ids _ _ _) as [[ids|e] w1]; [|done].
  destruct (get_published_file_details _ _ _) as [[items|e] w2]; [|done].
  by destruct (manifest_lines _ _).
Qed.

Lemma save_ok output_dir lines w p w' :
  save rt output_dir lines w = (Ok p, w') →
  p = os_path_join rt output_dir "maplist.txt"
  ∧ posts w' = posts w ∧ naps w' = naps w
  ∧ dirs (fs w') = {[output_dir]} ∪ dirs (fs w)
  ∧ files (fs w') = <[p := manifest_bytes rt lines]> (files (fs w)).
Proof.
  unfold save, os_makedirs, open_w, file_write, manifest_bytes. run_M.
  repeat (case_bool_decide; simpl);
    destruct (unencodable rt (join_lines lines)); simpl;
    intros [= <- <-]; simpl.
  all: rewrite alter_insert_eq; simpl; repeat split; try done.
  symmetry. apply subseteq_union_1_L. by apply singleton_subseteq_l.
Qed.

(** A raising [save] failed in [os.makedirs] or [open], with every file as
    it was, or in [f.write], with the manifest cut to nothing. *)
Lemma save_raise output_dir lines w e w' :
  save rt output_dir lines w = (Raise e, w') →
  posts w' = posts w ∧ naps w' = naps w
  ∧ transport_error e = false
  ∧ ((filesystem_error e = true ∧ files (fs w') = files (fs w))
     ∨ (e = UnicodeEncodeError
        ∧ unencodable rt (join_lines lines) = true
        ∧ files (fs w')
          = <[os_path_join rt output_dir "maplist.txt" := []]>
              (files (fs w)))).
Proof.
  unfold save, os_makedirs, open_w, file_write. run_M.
  repeat (case_bool_decide; simpl);
    destruct (unencodable rt (join_lines lines)) eqn:Hu; simpl;
    intros [= <- <-]; simpl; split_and!; try done; eauto.
Qed.
End Steps.

Lemma issued_app w ps n f :
  issued w (World (posts w ++ ps) n f) = ps.
Proof. unfold issued. simpl. by rewrite drop_app_length. Qed.

(** ** The manifest on disk and the batches on the wire *)


(** The scenario of 120 members: three requests carrying 50, 50 and 20
    ids (plus [itemcount]), three pacing sleeps. *)
Example batcher_120 :
  let ids := (λ k : nat, PyStr (pretty k)) <$> seq 0 120 in
  let '(r, w') :=
    get_published_file_details
      (service Unreachable (Reply 200 (Some (details_doc [])))) ids fresh in
  r = Ok [] ∧ naps w' = 3%nat
  ∧ (λ rq, size (data rq)) <$> posts w' = [51; 51; 21]%nat.
Proof. vm_compute. done. Qed.

Lemma world_eta w : World (posts w) (naps w) (fs w) = w.
Proof. by destruct w. Qed.

(** C6: when the collection has no members, [get_published_file_details]
    issues no request and returns the empty list, the manifest has no
    lines and encodes to zero bytes, and [generate_maplist] issues nothing
    after the collection request and writes an empty [maplist.txt] (when
    the filesystem refuses, nothing is written). *)
Theorem empty_collection (rt : runtime) (remote : nat → request → outcome)
    (collection_id output_dir : string) (w w1 : world) :
  get_collection_item_ids remote collection_id w = (Ok [], w1) →
  get_published_file_details remote [] w1 = (Ok [], w1)
  ∧ manifest_lines rt [] = Ok []
  ∧ manifest_bytes rt [] = []
  ∧ let '(r, w') := generate_maplist rt remote collection_id output_dir w in
    issued w1 w' = []
    ∧ match r with
      | Ok p => files (fs w') !! p = Some []
      | Raise e => transport_error e = false ∧ files (fs w') = files (fs w)
      end.
Proof.
  intros Hids.
  assert (Hdet : get_published_file_details remote [] w1 = (Ok [], w1)).
  { rewrite get_published_file_details_run. simpl.
    by rewrite app_nil_r, Nat.add_0_r, world_eta. }
  split_and!; [done..|].
  rewrite generate_maplist_run, Hids, Hdet.
  change (manifest_lines rt []) with (Ok (@nil string)).
  assert (Hfs : fs w1 = fs w).
  { rewrite get_collection_item_ids_run in Hids. by injection Hids as _ <-. }
  destruct (save rt output_dir [] w1) as [[p|e] w'] eqn:Hsave.
  - apply save_ok in Hsave as (_ & Hposts & _ & _ & ->).
    split; [|apply lookup_insert_eq].
    unfold issued. by rewrite Hposts, drop_all.
  - apply save_raise in Hsave as (Hposts & _ & He & [[_ ->]|(_ & Hu & _)]);
      [|done].
    split; [|by rewrite Hfs].
    unfold issued. by rewrite Hposts, drop_all.
Qed.

Lemma empty_collection_witness :
  let remote := service (Reply 200 (Some (collection_doc []))) Unreachable in
  let w1 := World [collection_request "3"] 0 (Filesystem ∅ ∅) in
  get_published_file_details remote [] w1 = (Ok [], w1)
  ∧ manifest_lines posix [] = Ok []
  ∧ manifest_bytes posix [] = []
  ∧ let '(r, w') := generate_maplist posix remote "3" "out" fresh in
    issued w1 w' = []
    ∧ match r with
      | Ok p => files (fs w') !! p = Some []
      | Raise e => transport_error e = false ∧ files (fs w') = files (fs fresh)
      end.
Proof.
  intros remote w1.
  apply (empty_collection posix remote "3" "out" fresh w1).
  vm_compute. reflexivity.
Defined.

(** C7, amended: a run of [generate_maplist] that returns gives back
    [os.path.join(output_dir, "maplist.txt")], the path it wrote, whatever
    [output_dir] is; the directory exists afterwards; and the file holds the
    UTF-8 bytes of the manifest lines joined by single newlines, each
    newline written as the platform's line separator, with nothing before
    the first line and nothing after the last. *)
Theorem manifest_file_written (rt : runtime)
    (remote : nat → request → outcome)
    (collection_id output_dir p : string) (w w' : world) :
  generate_maplist rt remote collection_id output_dir w = (Ok p, w') →
  p = os_path_join rt output_dir "maplist.txt"
  ∧ output_dir ∈ dirs (fs w')
  ∧ ∃ ids w1 items w2 lines,
      get_collection_item_ids remote collection_id w = (Ok ids, w1)
      ∧ get_published_file_details remote ids w1 = (Ok items, w2)
      ∧ manifest_lines rt items = Ok lines
      ∧ files (fs w') !! p
        = Some (utf8_encode
                  (translate_newlines (os_linesep rt) (String.concat NL lines))).
Proof.
  rewrite generate_maplist_run.
  destruct (get_collection_item_ids _ _ _) as [[ids|e] w1] eqn:Hids; [|done].
  destruct (get_published_file_details _ _ _) as [[items|e] w2] eqn:Hdet;
    [|done].
  destruct (manifest_lines _ _) as [lines|e] eqn:Hlines; [|done].
  intros (-> & _ & _ & Hdirs & Hfiles)%save_ok.
  split_and!; [done| |].
  - rewrite Hdirs. apply elem_of_union. left. by apply elem_of_singleton.
  - exists ids, w1, items, w2, lines. split_and!; [done..|].
    rewrite Hfiles. apply lookup_insert_eq.
Qed.

Lemma manifest_file_written_witness :
  let remote :=
    service (Reply 200 (Some (collection_doc ["2"; "1"])))
            (Reply 200 (Some (details_doc [member "Dust2" "2"; member "Aztec" "1"]))) in
  let w' := (generate_maplist posix remote "3" "/srv/maps" fresh).2 in
  "/srv/maps/maplist.txt" = os_path_join posix "/srv/maps" "maplist.txt"
  ∧ "/srv/maps" ∈ dirs (fs w')
  ∧ ∃ ids w1 items w2 lines,
      get_collection_item_ids remote "3" fresh = (Ok ids, w1)
      ∧ get_published_file_details remote ids w1 = (Ok items, w2)
      ∧ manifest_lines posix items = Ok lines
      ∧ files (fs w') !! "/srv/maps/maplist.txt"
        = Some (utf8_encode
                  (translate_newlines (os_linesep posix)
                     (String.concat NL lines))).
Proof.
  intros remote w'.
  apply (manifest_file_written posix remote "3" "/srv/maps"
           "/srv/maps/maplist.txt" fresh w').
  vm_compute. reflexivity.
Defined.

(** C7 as stated fails: with the relative output directory [out] the
    function returns [out/maplist.txt], which is not an absolute path. *)
Lemma relative_output_dir_path_not_absolute :
  let remote :=
    service (Reply 200 (Some (collection_doc ["1"])))
            (Reply 200 (Some (details_doc [member "Aztec" "1"]))) in
  let '(r, w') := generate_maplist posix remote "3" "out" fresh in
  r = Ok "out/maplist.txt"
  ∧ files (fs w') !! "out/maplist.txt"
    = Some (utf8_encode "Aztec:1")
  ∧ os_path_isabs posix "out/maplist.txt" = false.
Proof. vm_compute. done. Qed.

(** C10: whatever the run does, every file other than
    [os.path.join(output_dir, "maplist.txt")] is as it was; when the run
    returns, the file at that path holds the bytes of the new manifest and
    nothing of what it held before; when the run raises, either no file has
    changed, or [f.write] refused the text with [UnicodeEncodeError] after
    [open] had cut the file, which is then left empty. *)
Theorem only_manifest_replaced (rt : runtime)
    (remote : nat → request → outcome)
    (collection_id output_dir : string) (w : world) :
  let path := os_path_join rt output_dir "maplist.txt" in
  let '(r, w') := generate_maplist rt remote collection_id output_dir w in
  delete path (files (fs w')) = delete path (files (fs w))
  ∧ match r with
    | Ok p =>
        p = path
        ∧ ∃ ids w1 items w2 lines,
            get_collection_item_ids remote collection_id w = (Ok ids, w1)
            ∧ get_published_file_details remote ids w1 = (Ok items, w2)
            ∧ manifest_lines rt items = Ok lines
            ∧ files (fs w')
              = <[path := manifest_bytes rt lines]> (files (fs w))
    | Raise e =>
        files (fs w') = files (fs w)
        ∨ (e = UnicodeEncodeError
           ∧ files (fs w') = <[path := []]> (files (fs w)))
    end.
Proof.
  intros path. rewrite generate_maplist_run.
  destruct (get_collection_item_ids _ _ _) as [[ids|e] w1] eqn:Hids.
  2:{ rewrite get_collection_item_ids_run in Hids.
      injection Hids as _ <-. by split; [|left]. }
  assert (Hfs1 : files (fs w1) = files (fs w)).
  { rewrite get_collection_item_ids_run in Hids. by injection Hids as _ <-. }
  destruct (get_published_file_details _ _ _) as [[items|e] w2] eqn:Hdet.
  2:{ rewrite get_published_file_details_run in Hdet.
      destruct (collect _ _ _ _). injection Hdet as _ <-. simpl.
      rewrite Hfs1. by split; [|left]. }
  assert (Hfs2 : files (fs w2) = files (fs w)).
  { rewrite get_published_file_details_run in Hdet.
    destruct (collect _ _ _ _). injection Hdet as _ <-. done. }
  destruct (manifest_lines _ _) as [lines|e] eqn:Hlines.
  2:{ rewrite Hfs2. by split; [|left]. }
  destruct (save _ _ _ _) as [[p|e] w'] eqn:Hsave.
  - apply save_ok in Hsave as (-> & _ & _ & _ & ->). rewrite Hfs2.
    split; [apply delete_insert_eq|]. split; [done|].
    by exists ids, w1, items, w2, lines.
  - apply save_raise in Hsave as (_ & _ & _ & [[_ ->]|(-> & _ & ->)]);
      rewrite Hfs2.
    + by split; [|left].
    + split; [apply delete_insert_eq|]. by right.
Qed.

(** A title with a lone surrogate: the fetch goes through, [f.write]
    refuses the text, and a manifest that was there before is left empty. *)
Example manifest_refused :
  let remote :=
    service (Reply 200 (Some (collection_doc ["1"])))
            (Reply 200 (Some (details_doc
               [member (String "255"%char "Aztec") "1"]))) in
  let before :=
    World [] 0 (Filesystem {["out"]}
                  {["out/maplist.txt" := utf8_encode "Dust2:2"]}) in
  let '(r, w') :=
    generate_maplist posix_with_surrogate remote "3" "out" before in
  r = Raise UnicodeEncodeError
  ∧ files (fs w') !! "out/maplist.txt" = Some [].
Proof. vm_compute. done. Qed.

(** ** Transport failures *)

Lemma reply_of_failed o :
  failed o = true →
  (∃ e, reply_of o = Raise e ∧ transport_error e = true)
  ∨ (∃ r, reply_of o = Ok r
          ∧ raise_for_status r = Raise (HTTPError (status_code r))).
Proof.
  destruct o as [| |s b]; simpl; intros Hf; [left; eauto..|].
  right. eexists. split; [done|]. unfold raise_for_status. simpl. by rewrite Hf.
Qed.

Lemma ids_of_failed o :
  failed o = true → ∃ e, ids_of o = Raise e ∧ transport_error e = true.
Proof.
  intros [(e & He & Ht)|(r & Hr & Hs)]%reply_of_failed; unfold ids_of.
  - rewrite He. eauto.
  - rewrite Hr. simpl. rewrite Hs. eauto.
Qed.

Lemma details_of_failed o :
  failed o = true → ∃ e, details_of o = Raise e ∧ transport_error e = true.
Proof.
  intros [(e & He & Ht)|(r & Hr & Hs)]%reply_of_failed; unfold details_of.
  - rewrite He. eauto.
  - rewrite Hr. simpl. rewrite Hs. eauto.
Qed.

Lemma collect_failed remote bs k acc j b :
  let '(r, m) := collect remote k bs acc in
  (j < m)%nat → bs !! j = Some b →
  failed (remote (k + j)%nat (details_request b)) = true →
  (∃ e, r = Raise e ∧ transport_error e = true) ∧ m = S j.
Proof.
  revert k acc j. induction bs as [|b0 bs IH]; intros k acc j; simpl.
  { intros; lia. }
  destruct (details_of (remote k (details_request b0))) as [more|e] eqn:Hd.
  - specialize (IH (S k) (acc ++ more)).
    destruct (collect _ _ _ _) as [r m]. intros Hj Hb Hf.
    destruct j as [|j]; simpl in Hb.
    + injection Hb as <-. rewrite Nat.add_0_r in Hf.
      apply details_of_failed in Hf as (e & He & _). congruence.
    + specialize (IH j). rewrite Nat.add_succ_r in Hf.
      destruct IH as [He ->]; [lia|done|done|]. done.
  - intros Hj Hb Hf. assert (j = 0%nat) as -> by lia.
    simpl in Hb. injection Hb as <-. rewrite Nat.add_0_r in Hf.
    apply details_of_failed in Hf as (e' & He & Ht).
    split; [|done]. exists e. split; [done|]. congruence.
Qed.

(** C4, amended: when some request of a run, the collection request or a
    detail batch, fails in transport (no connection, a timeout, or a 4xx or
    5xx status), [generate_maplist] raises the transport error, the
    filesystem is exactly as before (no directory, no file), and the
    failing request is the last one issued. *)
Theorem transport_failure_aborts (rt : runtime)
    (remote : nat → request → outcome)
    (collection_id output_dir : string) (w w' : world) (r : result string)
    (k : nat) (rq : request) :
  generate_maplist rt remote collection_id output_dir w = (r, w') →
  issued w w' !! k = Some rq →
  failed (remote (length (posts w) + k)%nat rq) = true →
  (∃ e, r = Raise e ∧ transport_error e = true)
  ∧ fs w' = fs w
  ∧ length (issued w w') = S k.
Proof.
  rewrite generate_maplist_run, get_collection_item_ids_run.
  destruct (ids_of _) as [ids|e] eqn:Hids.
  - rewrite get_published_file_details_run. simpl.
    rewrite length_app. simpl.
    pose proof (collect_count remote (length (posts w) + 1) (batches ids) [])
      as Hcount.
    pose proof (collect_failed remote (batches ids)
                  (length (posts w) + 1) [] (pred k)) as Hc.
    destruct (collect _ _ _ _) as [rc m]. rewrite <-app_assoc. simpl.
    intros Hrun.
    assert (posts w' = posts w ++ collection_request collection_id
                         :: (details_request <$> take m (batches ids))
            ∧ ∀ e, rc = Raise e → r = Raise e ∧ fs w' = fs w)
      as [Hposts Hraise].
    { destruct rc as [items|e].
      - split; [|done].
        destruct (manifest_lines _ _) as [lines|e];
          [|by injection Hrun as _ <-].
        destruct r as [p|e].
        + by apply save_ok in Hrun as (_ & -> & _).
        + by apply save_raise in Hrun as (-> & _).
      - injection Hrun as <- <-. split; [done|]. by intros e' [= ->]. }
    unfold issued. rewrite Hposts, drop_app_length.
    intros Hk Hf. destruct k as [|j]; simpl in Hk.
    { injection Hk as <-. rewrite Nat.add_0_r in Hf.
      apply ids_of_failed in Hf as (e & He & _). congruence. }
    apply list_lookup_fmap_Some in Hk as (b & -> & Hb).
    apply lookup_take_Some in Hb as [Hb Hj].
    replace (length (posts w) + S j)%nat
      with (length (posts w) + 1 + j)%nat in Hf by lia.
    destruct (Hc b Hj Hb Hf) as [(e & -> & Ht) ->].
    destruct (Hraise e eq_refl) as [-> Hfs].
    split_and!; [by exists e|done|].
    simpl in *. rewrite length_fmap, length_take. lia.
  - intros [= <- <-]. rewrite issued_app. intros Hk Hf.
    destruct k as [|k]; [|done]. injection Hk as <-.
    rewrite Nat.add_0_r in Hf.
    apply ids_of_failed in Hf as (e' & He & Ht).
    split_and!; [|done..]. exists e. split; [done|]. congruence.
Qed.

Lemma transport_failure_aborts_witness :
  let remote :=
    service (Reply 200 (Some (collection_doc ["2"; "1"])))
            (Reply 503 None) in
  let run := generate_maplist posix remote "3" "out" fresh in
  (∃ e, run.1 = Raise e ∧ transport_error e = true)
  ∧ fs run.2 = fs fresh
  ∧ length (issued fresh run.2) = 2%nat.
Proof.
  intros remote run.
  apply (transport_failure_aborts posix remote "3" "out" fresh run.2 run.1
           1 (details_request [PyStr "2"; PyStr "1"])).
  - apply surjective_pairing.
  - vm_compute. reflexivity.
  - vm_compute. reflexivity.
Defined.

(** C4 as stated fails: a reply with the non-2xx status 300 is not
    rejected by [raise_for_status]; the run goes on and writes the file. *)
Lemma status_300_is_not_rejected :
  let remote :=
    service (Reply 300 (Some (collection_doc ["1"])))
            (Reply 200 (Some (details_doc [member "Aztec" "1"]))) in
  let '(r, w') := generate_maplist posix remote "3" "out" fresh in
  r = Ok "out/maplist.txt"
  ∧ "out" ∈ dirs (fs w')
  ∧ files (fs w') !! "out/maplist.txt" = Some (utf8_encode "Aztec:1").
Proof. vm_compute. done. Qed.

(** ** The shape of the collection document *)

Ltac run_result := unfold mbind, mret, result_bind, result_ret, rbind.

Lemma seq_index_0 {A} (l : list A) :
  seq_index l 0 = match l with [] => Raise IndexError | x :: _ => Ok x end.
Proof. by destruct l. Qed.

Lemma children_ids_missing j :
  children_of j = None →
  ∃ e, children_ids j = Raise e ∧ indexing_fault e = true.
Proof.
  unfold children_ids, children_of. run_result.
  destruct j as [| | | | |?|d]; simpl; eauto.
  destruct (d !! "response") as [resp|]; eauto.
  destruct resp as [| | | | |?|r]; simpl; eauto.
  destruct (r !! "collectiondetails") as [cd|]; eauto.
  destruct cd as [| | | |s|l|?]; simpl; eauto.
  - rewrite seq_index_0. destruct s; simpl; eauto.
  - rewrite seq_index_0. destruct l as [|c0 l]; simpl; eauto.
    destruct c0 as [| | | | |?|c]; simpl; eauto.
    destruct (c !! "children"); [done|eauto].
Qed.

Lemma children_ids_present j ch :
  children_of j = Some ch →
  children_ids j
  = (cs ← py_iter ch; mapM (λ c, py_getitem c (PyStr "publishedfileid")) cs).
Proof.
  unfold children_ids, children_of. run_result.
  destruct j as [| | | | |?|d]; simpl; try done.
  destruct (d !! "response") as [resp|]; [|done].
  destruct resp as [| | | | |?|r]; simpl; try done.
  destruct (r !! "collectiondetails") as [cd|]; [|done].
  destruct cd as [| | | |?|l|?]; simpl; try done.
  destruct l as [|c0 l]; [done|]. rewrite seq_index_0.
  destruct c0 as [| | | | |?|c]; simpl; try done.
  by intros ->.
Qed.

Lemma ids_of_reply s j :
  failed (Reply s (Some j)) = false →
  ids_of (Reply s (Some j)) = children_ids j.
Proof.
  unfold ids_of, raise_for_status. run_result. simpl. by intros ->.
Qed.

(** C5, amended: when the collection reply is accepted and its JSON
    document lacks [response.collectiondetails[0].children],
    [get_collection_item_ids] raises what the subscript raises, a
    [KeyError], an [IndexError] or a [TypeError], after its one request and
    with the filesystem untouched; the program has no error class of its own
    for a malformed response. *)
Theorem missing_structure_raises_indexing_fault
    (remote : nat → request → outcome) (collection_id : string) (w : world)
    (s : Z) (j : pyval) :
  remote (length (posts w)) (collection_request collection_id)
    = Reply s (Some j) →
  failed (Reply s (Some j)) = false →
  children_of j = None →
  ∃ e, get_collection_item_ids remote collection_id w
       = (Raise e,
          World (posts w ++ [collection_request collection_id])
                (naps w) (fs w))
       ∧ indexing_fault e = true
       ∧ transport_error e = false.
Proof.
  intros Hreply Hok Hshape.
  rewrite get_collection_item_ids_run, Hreply, ids_of_reply by done.
  destruct (children_ids_missing j Hshape) as (e & -> & He).
  exists e. split_and!; [done..|]. by destruct e.
Qed.

Lemma missing_structure_raises_indexing_fault_witness :
  ∃ e, get_collection_item_ids
         (service (Reply 200 (Some (PyDict {["response" := PyDict ∅]})))
                  Unreachable) "3" fresh
       = (Raise e, World (posts fresh ++ [collection_request "3"])
                         (naps fresh) (fs fresh))
       ∧ indexing_fault e = true
       ∧ transport_error e = false.
Proof.
  apply (missing_structure_raises_indexing_fault _ "3" fresh 200
           (PyDict {["response" := PyDict ∅]})); reflexivity.
Defined.

(** C5 as stated fails: on the JSON document [{}] the function raises
    [KeyError('response')], a generic indexing fault. *)
Lemma empty_document_raises_KeyError :
  (get_collection_item_ids (service (Reply 200 (Some (PyDict ∅))) Unreachable)
     "3" fresh).1
  = Raise (KeyError (PyStr "response"))
  ∧ children_of (PyDict ∅) = None
  ∧ indexing_fault (KeyError (PyStr "response")) = true.
Proof. vm_compute. done. Qed.

Lemma getitem_member_id c :
  match member_id c with
  | Some i => py_getitem c (PyStr "publishedfileid") = Ok i
  | None => ∃ e, py_getitem c (PyStr "publishedfileid") = Raise e
                 ∧ indexing_fault e = true
  end.
Proof.
  destruct c as [| | | | |?|d]; simpl; eauto.
  destruct (d !! "publishedfileid"); eauto.
Qed.

Lemma mapM_member_ids cs :
  match mapM (λ c, py_getitem c (PyStr "publishedfileid")) cs with
  | Ok ids => Forall2 (λ c i, member_id c = Some i) cs ids
  | Raise e => indexing_fault e = true ∧ Exists (λ c, member_id c = None) cs
  end.
Proof.
  induction cs as [|c cs IH]; simpl; [constructor|]. run_result.
  pose proof (getitem_member_id c) as Hc.
  destruct (member_id c) as [i|] eqn:Hm.
  - rewrite Hc. destruct (mapM _ cs) as [ids|e].
    + by constructor.
    + destruct IH as [He Hex]. split; [done|]. by apply Exists_cons_tl.
  - destruct Hc as (e & -> & He). split; [done|]. by apply Exists_cons_hd.
Qed.

(** C9: when the collection document has its children and they can be
    walked, [get_collection_item_ids] returns exactly when every child
    carries a [publishedfileid]; it then returns one id per child, in order;
    and when some child lacks the field it raises a [KeyError] or a
    [TypeError], never skipping the child nor putting a default in its
    place. *)
Theorem child_without_id_raises
    (remote : nat → request → outcome) (collection_id : string) (w : world)
    (s : Z) (j ch : pyval) (cs : list pyval) :
  remote (length (posts w)) (collection_request collection_id)
    = Reply s (Some j) →
  failed (Reply s (Some j)) = false →
  children_of j = Some ch →
  py_iter ch = Ok cs →
  let r := (get_collection_item_ids remote collection_id w).1 in
  is_ok r = bool_decide (Forall (λ c, is_Some (member_id c)) cs)
  ∧ match r with
    | Ok ids => Forall2 (λ c i, member_id c = Some i) cs ids
    | Raise e =>
        indexing_fault e = true ∧ Exists (λ c, member_id c = None) cs
    end.
Proof.
  intros Hreply Hok Hch Hcs.
  rewrite get_collection_item_ids_run, Hreply, ids_of_reply by done.
  rewrite (children_ids_present j ch Hch), Hcs. simpl.
  change (Ok cs ≫= mapM (λ c, py_getitem c (PyStr "publishedfileid")))
    with (mapM (λ c, py_getitem c (PyStr "publishedfileid")) cs).
  pose proof (mapM_member_ids cs) as Hm.
  destruct (mapM _ cs) as [ids|e]; simpl; (split; [|done]).
  - symmetry. apply bool_decide_eq_true.
    clear Hcs. induction Hm as [|c i cs' ids Hc _ IH]; constructor;
      [by eexists|done].
  - symmetry. apply bool_decide_eq_false. destruct Hm as [_ Hex].
    intros Hall. apply Exists_exists in Hex as (c & Hin & Hnone).
    rewrite Forall_forall in Hall. destruct (Hall c Hin) as [i Hi]. congruence.
Qed.

Lemma child_without_id_raises_witness :
  let j := PyDict {["response" := PyDict {["collectiondetails" := PyList
             [PyDict {["children" := PyList
                [PyDict {["publishedfileid" := PyStr "1"]};
                 PyDict {["sortorder" := PyInt 2]}]]}]]}]} in
  let cs := [PyDict {["publishedfileid" := PyStr "1"]};
             PyDict {["sortorder" := PyInt 2]}] in
  let r := (get_collection_item_ids
              (service (Reply 200 (Some j)) Unreachable) "3" fresh).1 in
  is_ok r = bool_decide (Forall (λ c, is_Some (member_id c)) cs)
  ∧ match r with
    | Ok ids => Forall2 (λ c i, member_id c = Some i) cs ids
    | Raise e =>
        indexing_fault e = true ∧ Exists (λ c, member_id c = None) cs
    end.
Proof.
  intros j cs.
  apply (child_without_id_raises _ "3" fresh 200 j (PyList cs) cs);
    reflexivity.
Defined.

(** A child without the field: the second child makes the call raise. *)
Example child_without_id_KeyError :
  ids_of (Reply 200 (Some (PyDict {["response" := PyDict
    {["collectiondetails" := PyList [PyDict {["children" := PyList
       [PyDict {["publishedfileid" := PyStr "1"]};
        PyDict {["sortorder" := PyInt 2]}]]}]]}]})))
  = Raise (KeyError (PyStr "publishedfileid")).
Proof. reflexivity. Qed.

(** ** The manifest builder *)

Lemma manifest_entries_mapM rt items :
  manifest_entries rt items
  = (os ← mapM (manifest_entry rt) items; mret (omap id os)).
Proof.
  induction items as [|item items IH]; [done|]. simpl. rewrite IH.
  run_result. destruct (manifest_entry rt item) as [o|e]; [|done].
  destruct (mapM _ items) as [os|e]; [|done]. by destruct o.
Qed.

Lemma sorted_StronglySorted l : StronglySorted String.le (sorted l).
Proof. apply (StronglySorted_merge_sort _). Qed.

Lemma sorted_Permutation l : sorted l ≡ₚ l.
Proof. apply merge_sort_Permutation. Qed.

Lemma sorted_unique l1 l2 : l1 ≡ₚ l2 → sorted l1 = sorted l2.
Proof.
  intros Hp. apply (StronglySorted_unique String.le).
  - apply sorted_StronglySorted.
  - apply sorted_StronglySorted.
  - by rewrite !sorted_Permutation.
Qed.

(** C2, amended: the lines [generate_maplist] hands to the file are in
    non-decreasing character-wise order, and they are a rearrangement of the
    entries the generator yields, one per record it keeps: records that
    render alike give as many equal lines, nothing is dropped as a
    duplicate. *)
Theorem manifest_sorted_keeps_duplicates (rt : runtime)
    (items : list pyval) (lines : list string) :
  manifest_lines rt items = Ok lines →
  StronglySorted String.le lines
  ∧ ∃ os, mapM (manifest_entry rt) items = Ok os
          ∧ length os = length items
          ∧ lines ≡ₚ omap id os.
Proof.
  unfold manifest_lines. rewrite manifest_entries_mapM. run_result.
  destruct (mapM _ items) as [os|e] eqn:Hos; [|done].
  intros [= <-]. split; [apply sorted_StronglySorted|].
  exists os. split_and!; [done| |apply sorted_Permutation].
  clear -Hos. revert os Hos. induction items as [|item items IH]; simpl.
  - by intros os [= <-].
  - run_result. intros os.
    destruct (manifest_entry rt item); [|done].
    destruct (mapM _ items) as [os'|]; [|done].
    intros [= <-]. simpl. f_equal. by apply IH.
Qed.

Lemma manifest_sorted_keeps_duplicates_witness :
  StronglySorted String.le ["A:1"; "A:1"; "B:2"]
  ∧ ∃ os, mapM (manifest_entry posix)
            [member "B" "2"; member "A" "1"; member "" "9"; member "A" "1"]
          = Ok os
          ∧ length os = 4%nat
          ∧ ["A:1"; "A:1"; "B:2"] ≡ₚ omap id os.
Proof.
  apply (manifest_sorted_keeps_duplicates posix
    [member "B" "2"; member "A" "1"; member "" "9"; member "A" "1"]).
  reflexivity.
Defined.

(** C2 as stated fails: two records with the same title and id give the
    line twice. *)
Lemma duplicate_records_give_duplicate_lines :
  manifest_lines posix [member "A" "1"; member "A" "1"] = Ok ["A:1"; "A:1"]
  ∧ ¬ NoDup ["A:1"; "A:1"].
Proof.
  split; [reflexivity|]. intros Hnd. apply NoDup_cons in Hnd as [Hin _].
  apply Hin. by left.
Qed.

Lemma manifest_entry_record rt r :
  manifest_entry rt (record_doc r) = Ok (manifest_line rt r).
Proof.
  unfold manifest_entry, record_doc, manifest_line. run_result. simpl.
  rewrite lookup_insert_ne by done.
  destruct (mr_title r) as [t|].
  - rewrite lookup_insert_eq. simpl. case_bool_decide; [done|]. simpl.
    by rewrite lookup_insert_eq.
  - by rewrite lookup_delete_eq.
Qed.

Lemma manifest_entries_records rt rs :
  manifest_entries rt (record_doc <$> rs) = Ok (omap (manifest_line rt) rs).
Proof.
  induction rs as [|r rs IH]; [done|].
  rewrite fmap_cons. cbn [manifest_entries].
  rewrite manifest_entry_record, IH. run_result. simpl.
  by destruct (manifest_line rt r).
Qed.

(** C3, amended: on member records of the data model the manifest is the
    sorted list of their lines; a line is in it exactly when some record
    renders to it; a record has no line exactly when its title is missing or
    is the empty string (the test comes before the trimming, so a title of
    blanks only is kept); a kept record renders as its trimmed title, a
    colon and its id; and the title ["  Dust2  "] renders as ["Dust2:<id>"]. *)
Theorem manifest_filters_empty_titles (rt : runtime) :
  (∀ rs : list member_record,
     manifest_lines rt (record_doc <$> rs)
     = Ok (sorted (omap (manifest_line rt) rs)))
  ∧ (∀ (rs : list member_record) (line : string),
       line ∈ sorted (omap (manifest_line rt) rs)
       ↔ ∃ r, r ∈ rs ∧ manifest_line rt r = Some line)
  ∧ (∀ r : member_record,
       manifest_line rt r = None
       ↔ mr_title r = None ∨ mr_title r = Some "")
  ∧ (∀ (r : member_record) (t : string),
       mr_title r = Some t → t ≠ "" →
       manifest_line rt r = Some (strip t +:+ ":" +:+ py_format rt (mr_id r)))
  ∧ (∀ (fid : pyval) (rest : gmap string pyval),
       manifest_line rt (MemberRecord (Some "  Dust2  ") fid rest)
       = Some ("Dust2:" +:+ py_format rt fid)).
Proof.
  split_and!.
  - intros rs. unfold manifest_lines. by rewrite manifest_entries_records.
  - intros rs line. rewrite sorted_Permutation. apply list_elem_of_omap.
  - intros r. unfold manifest_line. destruct (mr_title r) as [t|].
    + case_bool_decide as Ht.
      * subst t. split; [by right|done].
      * split; [done|]. intros [?|[= ?]]; done.
    + split; [by left|done].
  - intros r t Ht Hne. unfold manifest_line. rewrite Ht.
    by rewrite bool_decide_false.
  - done.
Qed.

(** C3 as stated fails: a record whose title is three blanks is listed,
    as the line [":7"]. *)
Lemma whitespace_title_is_listed :
  manifest_lines posix [record_doc (MemberRecord (Some "   ") (PyStr "7") ∅)]
  = Ok [":7"]
  ∧ strip "   " = "".
Proof. split; reflexivity. Qed.

(** ** Two runs against the same remote state *)

Lemma same_up_to_order_ids o1 o2 :
  same_up_to_order o1 o2 → ids_of o1 = ids_of o2.
Proof.
  intros [o|s d r l1 l2 Hp]; [done|].
  unfold ids_of, children_ids. run_result. simpl.
  destruct (raise_for_status _); [|done]. simpl.
  rewrite !lookup_insert_eq. simpl. by rewrite !lookup_insert_ne.
Qed.

Lemma same_up_to_order_details o1 o2 more1 more2 :
  same_up_to_order o1 o2 →
  details_of o1 = Ok more1 → details_of o2 = Ok more2 → more1 ≡ₚ more2.
Proof.
  intros [o|s d r l1 l2 Hp]; [by intros -> [= ->]|].
  unfold details_of, published_file_details. run_result. simpl.
  destruct (raise_for_status _); [|done]. simpl.
  rewrite !lookup_insert_eq. simpl. rewrite !lookup_insert_eq. simpl.
  by intros [= <-] [= <-].
Qed.

Lemma collect_same_up_to_order remote1 remote2 bs k1 k2 acc1 acc2 i1 i2 m1 m2 :
  (∀ j rq, same_up_to_order (remote1 (k1 + j)%nat rq) (remote2 (k2 + j)%nat rq)) →
  acc1 ≡ₚ acc2 →
  collect remote1 k1 bs acc1 = (Ok i1, m1) →
  collect remote2 k2 bs acc2 = (Ok i2, m2) →
  i1 ≡ₚ i2.
Proof.
  revert k1 k2 acc1 acc2 m1 m2.
  induction bs as [|b bs IH]; intros k1 k2 acc1 acc2 m1 m2 Hsame Hacc; simpl.
  { by intros [= <- _] [= <- _]. }
  pose proof (Hsame 0%nat (details_request b)) as H0.
  rewrite !Nat.add_0_r in H0.
  destruct (details_of (remote1 _ _)) as [more1|] eqn:H1; [|done].
  destruct (details_of (remote2 _ _)) as [more2|] eqn:H2; [|done].
  destruct (collect remote1 _ _ _) as [r1 n1] eqn:Hc1.
  destruct (collect remote2 _ _ _) as [r2 n2] eqn:Hc2.
  intros [= -> _] [= -> _].
  eapply (IH (S k1) (S k2)); [| |done..].
  - intros j rq. specialize (Hsame (S j) rq).
    by rewrite !Nat.add_succ_r in Hsame.
  - apply Permutation_app; [done|]. by eapply same_up_to_order_details.
Qed.

Lemma manifest_entries_Permutation rt items1 items2 es1 :
  items1 ≡ₚ items2 →
  manifest_entries rt items1 = Ok es1 →
  ∃ es2, manifest_entries rt items2 = Ok es2 ∧ es1 ≡ₚ es2.
Proof.
  intros Hp. revert es1.
  induction Hp as [|x l1 l2 Hp IH|x y l|l1 l2 l3 Hp1 IH1 Hp2 IH2]; intros es1.
  - intros [= <-]. by exists [].
  - simpl. run_result. destruct (manifest_entry rt x) as [o|]; [|done].
    destruct (manifest_entries rt l1) as [es|] eqn:Hes; [|done].
    intros [= <-]. destruct (IH es eq_refl) as (es2 & -> & Hes2).
    eexists. split; [done|]. by apply Permutation_app.
  - simpl. run_result.
    destruct (manifest_entry rt y) as [oy|]; [|done].
    destruct (manifest_entry rt x) as [ox|]; [|done].
    destruct (manifest_entries rt l) as [es|]; [|done].
    intros [= <-]. eexists. split; [done|].
    rewrite !app_assoc. apply Permutation_app; [|done]. apply Permutation_app_comm.
  - intros H1. destruct (IH1 _ H1) as (es2 & H2 & Hp12).
    destruct (IH2 _ H2) as (es3 & H3 & Hp23).
    exists es3. split; [done|]. by etrans.
Qed.

Lemma manifest_lines_Permutation rt items1 items2 lines1 lines2 :
  items1 ≡ₚ items2 →
  manifest_lines rt items1 = Ok lines1 →
  manifest_lines rt items2 = Ok lines2 →
  lines1 = lines2.
Proof.
  unfold manifest_lines. run_result. intros Hp.
  destruct (manifest_entries rt items1) as [es1|] eqn:H1; [|done].
  destruct (manifest_entries_Permutation rt _ _ _ Hp H1) as (es2 & -> & Hes).
  intros [= <-] [= <-]. by apply sorted_unique.
Qed.

(** C8: two runs of [generate_maplist] with the same collection id and
    output directory that both return, against services whose answers to
    the k-th request agree up to the order of the records inside a detail
    reply, return the same path and leave byte-identical contents in the
    file, whatever the filesystem held before each run. *)
Theorem runs_write_identical_manifests (rt : runtime)
    (remote1 remote2 : nat → request → outcome)
    (collection_id output_dir : string)
    (wa wb wa' wb' : world) (pa pb : string) :
  (∀ k rq, same_up_to_order (remote1 (length (posts wa) + k)%nat rq)
                            (remote2 (length (posts wb) + k)%nat rq)) →
  generate_maplist rt remote1 collection_id output_dir wa = (Ok pa, wa') →
  generate_maplist rt remote2 collection_id output_dir wb = (Ok pb, wb') →
  pa = pb
  ∧ is_Some (files (fs wa') !! pa)
  ∧ files (fs wa') !! pa = files (fs wb') !! pb.
Proof.
  intros Hsame.
  rewrite !generate_maplist_run, !get_collection_item_ids_run.
  pose proof (Hsame 0%nat (collection_request collection_id)) as H0.
  rewrite !Nat.add_0_r in H0. apply same_up_to_order_ids in H0. rewrite H0.
  clear H0. destruct (ids_of _) as [ids|]; simpl; [|done].
  rewrite !get_published_file_details_run. simpl. rewrite !length_app. simpl.
  destruct (collect remote1 _ _ _) as [[items1|] m1] eqn:Hc1; [|done].
  destruct (collect remote2 _ _ _) as [[items2|] m2] eqn:Hc2; [|done].
  assert (items1 ≡ₚ items2) as Hitems.
  { eapply (collect_same_up_to_order remote1 remote2); [|done..].
    intros j rq. specialize (Hsame (S j) rq).
    by replace (length (posts wa) + 1 + j)%nat
         with (length (posts wa) + S j)%nat by lia;
       replace (length (posts wb) + 1 + j)%nat
         with (length (posts wb) + S j)%nat by lia. }
  destruct (manifest_lines rt items1) as [lines1|] eqn:Hl1; [|done].
  destruct (manifest_lines rt items2) as [lines2|] eqn:Hl2; [|done].
  rewrite (manifest_lines_Permutation rt _ _ _ _ Hitems Hl1 Hl2).
  intros (-> & _ & _ & _ & ->)%save_ok (-> & _ & _ & _ & ->)%save_ok.
  rewrite !lookup_insert_eq. eauto.
Qed.

Lemma runs_write_identical_manifests_witness :
  let coll := Reply 200 (Some (collection_doc ["2"; "1"])) in
  let remote1 :=
    service coll (Reply 200 (Some (details_doc
      [member "Dust2" "2"; member "Aztec" "1"]))) in
  let remote2 :=
    service coll (Reply 200 (Some (details_doc
      [member "Aztec" "1"; member "Dust2" "2"]))) in
  let wa' := (generate_maplist posix remote1 "3" "out" fresh).2 in
  let wb' := (generate_maplist posix remote2 "3" "out" wa').2 in
  "out/maplist.txt" = "out/maplist.txt"
  ∧ is_Some (files (fs wa') !! "out/maplist.txt")
  ∧ files (fs wa') !! "out/maplist.txt" = files (fs wb') !! "out/maplist.txt".
Proof.
  intros coll remote1 remote2 wa' wb'.
  apply (runs_write_identical_manifests posix remote1 remote2 "3" "out"
           fresh wa' wa' wb').
  - intros k rq. unfold remote1, remote2, service.
    case_bool_decide; [apply same_outcome|].
    apply (same_records 200 ∅ ∅). apply Permutation_swap.
  - vm_compute. reflexivity.
  - vm_compute. reflexivity.
Defined.

(** * Further properties of the pipeline *)

(** X1: whatever the service answers, [get_collection_item_ids] issues
    exactly one request, to the collection endpoint, with [collectioncount]
    ["1"] and the collection id in [publishedfileids[0]] and no other
    field; it never sleeps and never touches the filesystem; and its result
    is decided by that one reply. *)
Theorem collection_lookup_is_one_request
    (remote : nat → request → outcome) (collection_id : string) (w : world) :
  let '(r, w') := get_collection_item_ids remote collection_id w in
  issued w w' = [collection_request collection_id]
  ∧ naps w' = naps w
  ∧ fs w' = fs w
  ∧ r = ids_of (remote (length (posts w)) (collection_request collection_id))
  ∧ url (collection_request collection_id) = STEAM_COLLECTION_API
  ∧ data (collection_request collection_id) !! "collectioncount"
    = Some (PyStr "1")
  ∧ data (collection_request collection_id) !! "publishedfileids[0]"
    = Some (PyStr collection_id)
  ∧ size (data (collection_request collection_id)) = 2%nat.
Proof.
  rewrite get_collection_item_ids_run, issued_app. simpl.
  split_and!; done.
Qed.

(** X2: [get_published_file_details] never touches the filesystem and
    sleeps once after every batch it got through: ceil(n/50) times when it
    returns, the last batch included, and one time less than the requests
    it issued when it raises. *)
Theorem pacing_sleep_after_every_batch
    (remote : nat → request → outcome) (ids : list pyval) (w : world) :
  let '(r, w') := get_published_file_details remote ids w in
  fs w' = fs w
  ∧ naps w' = (naps w + if is_ok r
                        then div_ceil (length ids) BATCH_SIZE
                        else length (issued w w') - 1)%nat.
Proof.
  rewrite get_published_file_details_run.
  pose proof (collect_count remote (length (posts w)) (batches ids) []) as Hm.
  destruct (collect _ _ _ _) as [r m]. rewrite issued_app.
  split; [done|]. cbn [naps]. f_equal.
  rewrite length_fmap, length_take, <-batches_length.
  destruct r; cbn [is_ok] in *; lia.
Qed.

Lemma collect_chunks remote bs k acc items m :
  collect remote k bs acc = (Ok items, m) →
  ∃ chunks,
    imap (λ j b, details_of (remote (k + j)%nat (details_request b))) bs
    = Ok <$> chunks
    ∧ items = acc ++ concat chunks.
Proof.
  revert k acc m. induction bs as [|b bs IH]; intros k acc m; cbn [collect].
  { intros [= <- _]. exists []. by rewrite app_nil_r. }
  destruct (details_of (remote k (details_request b))) as [more|] eqn:Hd;
    [|done].
  destruct (collect remote (S k) bs (acc ++ more)) as [r m'] eqn:Hc.
  intros [= -> _]. destruct (IH _ _ _ Hc) as (chunks & Hchunks & ->).
  exists (more :: chunks). split; [|by rewrite <-app_assoc].
  rewrite imap_cons, fmap_cons, Nat.add_0_r, Hd. f_equal.
  rewrite <-Hchunks. apply imap_ext. intros j b' _. simpl.
  by rewrite Nat.add_succ_r.
Qed.

Lemma reply_records_details o l more :
  reply_records o = Some l → details_of o = Ok more → more = l.
Proof.
  unfold reply_records, details_of, published_file_details. run_result.
  destruct o as [| |s [[| | | | |?|d]|]]; try done. simpl.
  destruct (raise_for_status _); [|done]. simpl.
  destruct (d !! "response") as [[| | | | |?|r]|]; try done. simpl.
  destruct (r !! "publishedfiledetails") as [[| | | | |?|?]|]; try done.
  simpl. by intros [= <-] [= <-].
Qed.

(** X3: when [get_published_file_details] returns and every reply lists
    its records in a JSON array under [response.publishedfiledetails], the
    result is the array of the reply to the first batch, then the array of
    the reply to the second batch, and so on, each in its own order. *)
Theorem details_aggregated_in_batch_order
    (remote : nat → request → outcome) (ids items : list pyval)
    (chunks : list (list pyval)) (w w' : world) :
  get_published_file_details remote ids w = (Ok items, w') →
  imap (λ k b, reply_records (remote (length (posts w) + k)%nat
                                     (details_request b)))
       (batches ids)
  = Some <$> chunks →
  items = concat chunks.
Proof.
  rewrite get_published_file_details_run.
  destruct (collect _ _ _ _) as [r m] eqn:Hc. intros [= -> _] Hrec.
  apply collect_chunks in Hc as (chunks' & Hdet & ->). simpl. f_equal.
  apply list_eq. intros k.
  apply (f_equal (λ l, l !! k)) in Hdet. apply (f_equal (λ l, l !! k)) in Hrec.
  cbv beta in Hdet, Hrec.
  rewrite list_lookup_imap, list_lookup_fmap in Hdet.
  rewrite list_lookup_imap, list_lookup_fmap in Hrec.
  destruct (batches ids !! k) as [b|]; simpl in *.
  - destruct (chunks' !! k) as [c'|], (chunks !! k) as [c|]; simplify_eq/=.
    f_equal. by eapply reply_records_details.
  - by destruct (chunks' !! k), (chunks !! k).
Qed.

Lemma details_aggregated_in_batch_order_witness :
  let remote := λ (k : nat) (_ : request),
    Reply 200 (Some (details_doc [PyInt (Z.of_nat k); PyStr "x"])) in
  let ids := PyInt <$> seqZ 0 101 in
  [PyInt 0; PyStr "x"; PyInt 1; PyStr "x"; PyInt 2; PyStr "x"]
  = concat [[PyInt 0; PyStr "x"]; [PyInt 1; PyStr "x"]; [PyInt 2; PyStr "x"]].
Proof.
  intros remote ids.
  apply (details_aggregated_in_batch_order remote ids _ _ fresh
           (get_published_file_details remote ids fresh).2).
  - vm_compute. reflexivity.
  - vm_compute. reflexivity.
Defined.

Lemma batches_bounds ids :
  Forall (λ b : list pyval, (1 ≤ length b ≤ BATCH_SIZE)%nat) (batches ids).
Proof.
  rewrite batches_spec. apply Forall_fmap, Forall_forall.
  intros k Hk%elem_of_seq. simpl.
  assert (k * BATCH_SIZE < length ids)%nat
    by (apply div_ceil_tight; [unfold BATCH_SIZE; lia | lia]).
  rewrite length_take, length_drop. unfold BATCH_SIZE in *. lia.
Qed.

(** X4: no batch is empty and none has more than 50 ids; every request
    [get_published_file_details] issues goes to the detail endpoint with the
    timeout 30 and carries between 1 and 50 ids beside [itemcount]. *)
Theorem batch_requests_carry_1_to_50_ids
    (remote : nat → request → outcome) (ids : list pyval) (w : world) :
  let '(r, w') := get_published_file_details remote ids w in
  Forall (λ b : list pyval, (1 ≤ length b ≤ BATCH_SIZE)%nat) (batches ids)
  ∧ Forall (λ rq, url rq = STEAM_DETAILS_API
                  ∧ timeout rq = 30%nat
                  ∧ (2 ≤ size (data rq) ≤ S BATCH_SIZE)%nat)
           (issued w w').
Proof.
  rewrite get_published_file_details_run.
  destruct (collect _ _ _ _) as [r m]. rewrite issued_app.
  split; [apply batches_bounds|].
  apply Forall_fmap. eapply Forall_impl.
  - apply Forall_take, batches_bounds.
  - intros b Hb. simpl. rewrite details_data_size.
    split_and!; try done; unfold BATCH_SIZE in *; lia.
Qed.

(** X5: a run of [generate_maplist] that returns has issued the
    collection request and then one request per batch of the ids that came
    back, 1 + ceil(n/50) requests in all, and has slept ceil(n/50) times. *)
Theorem returning_run_request_count (rt : runtime)
    (remote : nat → request → outcome)
    (collection_id output_dir p : string) (w w' : world) :
  generate_maplist rt remote collection_id output_dir w = (Ok p, w') →
  ∃ ids : list pyval,
    ids_of (remote (length (posts w)) (collection_request collection_id))
    = Ok ids
    ∧ issued w w'
      = collection_request collection_id :: (details_request <$> batches ids)
    ∧ length (issued w w') = S (div_ceil (length ids) BATCH_SIZE)
    ∧ naps w' = (naps w + div_ceil (length ids) BATCH_SIZE)%nat.
Proof.
  rewrite generate_maplist_run, get_collection_item_ids_run.
  destruct (ids_of _) as [ids|]; [|done].
  rewrite get_published_file_details_run. cbn [posts naps fs].
  pose proof (collect_count remote
                (length (posts w ++ [collection_request collection_id]))
                (batches ids) []) as Hm.
  destruct (collect _ _ _ _) as [[items|] m]; [|done].
  cbn [is_ok] in Hm. destruct Hm as [_ ->]. rewrite take_ge by done.
  destruct (manifest_lines _ _) as [lines|]; [|done].
  intros (_ & Hposts & Hnaps & _)%save_ok. cbn [posts naps] in *.
  exists ids. unfold issued.
  rewrite Hposts, Hnaps, <-app_assoc, drop_app_length. cbn [is_ok].
  split_and!; [done..| |].
  - simpl. by rewrite length_fmap, batches_length.
  - by rewrite batches_length.
Qed.

Lemma returning_run_request_count_witness :
  let remote :=
    service (Reply 200 (Some (collection_doc ["2"; "1"])))
            (Reply 200 (Some (details_doc [member "Dust2" "2"]))) in
  let w' := (generate_maplist posix remote "3" "out" fresh).2 in
  ∃ ids : list pyval,
    ids_of (remote (length (posts fresh)) (collection_request "3")) = Ok ids
    ∧ issued fresh w'
      = collection_request "3" :: (details_request <$> batches ids)
    ∧ length (issued fresh w') = S (div_ceil (length ids) BATCH_SIZE)
    ∧ naps w' = (naps fresh + div_ceil (length ids) BATCH_SIZE)%nat.
Proof.
  intros remote w'.
  apply (returning_run_request_count posix remote "3" "out"
           "out/maplist.txt" fresh w').
  vm_compute. reflexivity.
Defined.

Lemma save_raise_not_fetch_error rt output_dir lines w e w' :
  save rt output_dir lines w = (Raise e, w') → fetch_or_build_error e = false.
Proof.
  intros (_ & _ & _ & [[He _]|[-> _]])%save_raise; [|done]. by destruct e.
Qed.

Lemma generate_maplist_fetch_error_fs rt remote collection_id output_dir w e w' :
  generate_maplist rt remote collection_id output_dir w = (Raise e, w') →
  fetch_or_build_error e = true →
  fs w' = fs w.
Proof.
  rewrite generate_maplist_run, get_collection_item_ids_run.
  destruct (ids_of _) as [ids|]; [|by intros [= _ <-]].
  rewrite get_published_file_details_run. cbn [posts naps fs].
  destruct (collect _ _ _ _) as [[items|] m]; [|by intros [= _ <-]].
  destruct (manifest_lines _ _) as [lines|]; [|by intros [= _ <-]].
  intros Hsave%save_raise_not_fetch_error. congruence.
Qed.

(** X6: when [generate_maplist] raises an error of fetching or of building
    the lines (a [requests] error, a body that is not JSON, a [KeyError],
    [IndexError] or [TypeError] of a subscript, an [AttributeError] of a
    record that cannot be rendered), the filesystem is exactly as before:
    no directory made, no file opened. *)
Theorem fetch_and_build_errors_leave_disk_alone (rt : runtime)
    (remote : nat → request → outcome)
    (collection_id output_dir : string) (w w' : world) (e : exn) :
  generate_maplist rt remote collection_id output_dir w = (Raise e, w') →
  fetch_or_build_error e = true →
  fs w' = fs w.
Proof. apply generate_maplist_fetch_error_fs. Qed.

Lemma fetch_and_build_errors_leave_disk_alone_witness :
  let remote :=
    service (Reply 200 (Some (collection_doc ["1"])))
            (Reply 200 (Some (details_doc
               [PyDict {["title" := PyInt 7]}]))) in
  fs (generate_maplist posix_with_surrogate remote "3" "out" fresh).2
  = fs fresh.
Proof.
  intros remote.
  apply (fetch_and_build_errors_leave_disk_alone posix_with_surrogate remote
           "3" "out" fresh _ AttributeError).
  - vm_compute. reflexivity.
  - reflexivity.
Defined.

Lemma manifest_entry_renderable rt item :
  is_ok (manifest_entry rt item) = renderable item
  ∧ match manifest_entry rt item with
    | Ok _ => True
    | Raise e => e = AttributeError ∨ e = KeyError (PyStr "publishedfileid")
    end.
Proof.
  unfold manifest_entry, renderable. run_result.
  destruct item as [| | | | |?|d]; simpl; eauto.
  destruct (d !! "title") as [t|]; simpl; [|done].
  destruct t as [|b|z|f|s|l|d']; simpl; try done.
  - destruct b; simpl; eauto.
  - destruct (negb (z =? 0)%Z); simpl; eauto.
  - destruct (negb (spec_float_is_zero f)); simpl; eauto.
  - case_bool_decide as Hs; simpl; [done|].
    destruct (d !! "publishedfileid") as [i|]; simpl; eauto.
  - destruct (negb (bool_decide (length l = 0%nat))); simpl; eauto.
  - destruct (negb (bool_decide (size d' = 0%nat))); simpl; eauto.
Qed.

Lemma manifest_entries_renderable rt items :
  is_ok (manifest_entries rt items) = forallb renderable items
  ∧ match manifest_entries rt items with
    | Ok es => (length es ≤ length items)%nat
    | Raise e => e = AttributeError ∨ e = KeyError (PyStr "publishedfileid")
    end.
Proof.
  induction items as [|item items [IHok IHres]];
    [split; [done|simpl; lia]|].
  cbn [manifest_entries forallb]. run_result.
  destruct (manifest_entry_renderable rt item) as [Hok Hres].
  rewrite <-Hok, <-IHok.
  destruct (manifest_entry rt item) as [o|e]; simpl; [|done].
  destruct (manifest_entries rt items) as [es|e]; simpl; [|done].
  split; [done|]. rewrite length_app. destruct o; simpl; lia.
Qed.

(** X7: the manifest is built exactly when every record is a JSON object
    whose title, if it counts as true, is a string that comes with a
    [publishedfileid]; one record that is not makes the whole build raise
    [AttributeError] or [KeyError('publishedfileid')]; and a built manifest
    has at most one line per record. *)
Theorem manifest_needs_every_record_renderable (rt : runtime)
    (items : list pyval) :
  is_ok (manifest_lines rt items) = forallb renderable items
  ∧ match manifest_lines rt items with
    | Ok lines => (length lines ≤ length items)%nat
    | Raise e => e = AttributeError ∨ e = KeyError (PyStr "publishedfileid")
    end.
Proof.
  unfold manifest_lines. run_result.
  destruct (manifest_entries_renderable rt items) as [Hok Hres].
  destruct (manifest_entries rt items) as [es|e]; simpl in *; [|done].
  split; [done|]. by rewrite sorted_Permutation.
Qed.

(** ** Trimmed titles *)

Lemma string_app_cons c s t : String c s +:+ t = String c (s +:+ t).
Proof. reflexivity. Qed.

Lemma string_app_nil_l t : "" +:+ t = t.
Proof. reflexivity. Qed.

Lemma string_app_nil_r s : s +:+ "" = s.
Proof.
  induction s as [|c s IH]; [done|]. by rewrite string_app_cons, IH.
Qed.

Lemma string_app_assoc s1 s2 s3 : (s1 +:+ s2) +:+ s3 = s1 +:+ (s2 +:+ s3).
Proof.
  induction s1 as [|c s1 IH]; [done|]. by rewrite !string_app_cons, IH.
Qed.

Lemma rev_app_rev s t : String.rev_app s t = String.rev s +:+ t.
Proof.
  unfold String.rev. revert t. induction s as [|c s IH]; intros t; [done|].
  cbn [String.rev_app]. rewrite IH, (IH (String c "")).
  by rewrite string_app_assoc.
Qed.

Lemma string_rev_cons c s : String.rev (String c s) = String.rev s +:+ String c "".
Proof. unfold String.rev at 1. cbn [String.rev_app]. apply rev_app_rev. Qed.

Lemma string_rev_app s t : String.rev (s +:+ t) = String.rev t +:+ String.rev s.
Proof.
  induction s as [|c s IH].
  - by rewrite string_app_nil_l, string_app_nil_r.
  - by rewrite string_app_cons, !string_rev_cons, IH, string_app_assoc.
Qed.

Lemma string_rev_involutive s : String.rev (String.rev s) = s.
Proof.
  induction s as [|c s IH]; [done|].
  by rewrite string_rev_cons, string_rev_app, IH.
Qed.

Lemma lstrip_idemp s : lstrip (lstrip s) = lstrip s.
Proof.
  induction s as [|c s IH]; [done|]. simpl.
  destruct (isspace c) eqn:Hc; [done|]. simpl. by rewrite Hc.
Qed.

Lemma rstrip_idemp s : rstrip (rstrip s) = rstrip s.
Proof. unfold rstrip. by rewrite string_rev_involutive, lstrip_idemp. Qed.

Lemma lstrip_snoc s c :
  isspace c = false → ∃ z, lstrip (s +:+ String c "") = z +:+ String c "".
Proof.
  intros Hc. induction s as [|a s [z Hz]].
  - rewrite string_app_nil_l. cbn [lstrip]. rewrite Hc. by exists "".
  - rewrite string_app_cons. cbn [lstrip].
    destruct (isspace a); [by exists z|]. by exists (String a s).
Qed.

Lemma lstrip_rstrip s : lstrip s = s → lstrip (rstrip s) = rstrip s.
Proof.
  destruct s as [|c s]; [done|]. simpl.
  destruct (isspace c) eqn:Hc.
  - intros Hs. exfalso.
    assert (String.length (lstrip s) ≤ String.length s)%nat as Hlen.
    { clear. induction s as [|a s IH]; simpl; [done|].
      destruct (isspace a); simpl; lia. }
    rewrite Hs in Hlen. simpl in Hlen. lia.
  - intros _. unfold rstrip. rewrite string_rev_cons.
    destruct (lstrip_snoc (String.rev s) c Hc) as [z ->].
    rewrite string_rev_app.
    change (String.rev (String c "")) with (String c "").
    rewrite string_app_cons. cbn [lstrip]. by rewrite Hc.
Qed.

Lemma strip_trimmed s :
  lstrip (strip s) = strip s ∧ rstrip (strip s) = strip s.
Proof.
  unfold strip. split; [|apply rstrip_idemp].
  apply lstrip_rstrip, lstrip_idemp.
Qed.

Lemma manifest_entry_shape rt item line :
  manifest_entry rt item = Ok (Some line) →
  ∃ t i, line = t +:+ ":" +:+ i ∧ lstrip t = t ∧ rstrip t = t.
Proof.
  unfold manifest_entry. run_result.
  destruct (py_get item "title") as [t|]; [|done]. simpl.
  destruct (truthy t); [|done].
  destruct (py_getitem item (PyStr "title")) as [title|]; [|done]. simpl.
  destruct title as [| | | |s|?|?]; try done. simpl.
  destruct (py_getitem item (PyStr "publishedfileid")) as [fid|]; [|done].
  simpl. intros [= <-]. exists (strip s), (py_format rt fid).
  split; [done|]. apply strip_trimmed.
Qed.

(** X8: every line of a manifest is a title, a colon and an id, where the
    title has neither leading nor trailing whitespace; no line is empty. *)
Theorem manifest_lines_are_trimmed_title_colon_id (rt : runtime)
    (items : list pyval) (lines : list string) :
  manifest_lines rt items = Ok lines →
  Forall (λ line, line ≠ ""
                  ∧ ∃ t i, line = t +:+ ":" +:+ i
                           ∧ lstrip t = t ∧ rstrip t = t) lines.
Proof.
  unfold manifest_lines. run_result.
  destruct (manifest_entries rt items) as [es|] eqn:Hes; [|done].
  intros [= <-]. rewrite sorted_Permutation.
  revert es Hes. induction items as [|item items IH]; intros es.
  { intros [= <-]. constructor. }
  cbn [manifest_entries]. run_result.
  destruct (manifest_entry rt item) as [o|] eqn:Ho; [|done].
  destruct (manifest_entries rt items) as [es'|]; [|done].
  intros [= <-]. apply Forall_app. split; [|by apply IH].
  destruct o as [line|]; [|constructor]. repeat constructor.
  - destruct (manifest_entry_shape rt item line Ho) as (t & i & -> & _).
    by destruct t.
  - by eapply manifest_entry_shape.
Qed.

Lemma manifest_lines_are_trimmed_title_colon_id_witness :
  Forall (λ line, line ≠ ""
                  ∧ ∃ t i, line = t +:+ ":" +:+ i
                           ∧ lstrip t = t ∧ rstrip t = t)
         [":7"; "Dust2:2"].
Proof.
  apply (manifest_lines_are_trimmed_title_colon_id posix
           [member "  Dust2  " "2"; member "" "1"; member "   " "7"]).
  reflexivity.
Defined.

(** ** The form: pasting, generating, saving the configuration *)

Lemma digits_of_filter text :
  String.list_ascii_of_string (digits_of text)
  = filter (λ c, isdigit c = true) (String.list_ascii_of_string text).
Proof.
  induction text as [|c text IH]; [done|]. simpl.
  destruct (isdigit c) eqn:Hc.
  - rewrite filter_cons_True by done. simpl. by rewrite IH.
  - rewrite filter_cons_False by (by rewrite Hc). done.
Qed.

Lemma digits_of_idemp text : digits_of (digits_of text) = digits_of text.
Proof.
  induction text as [|c text IH]; [done|]. simpl.
  destruct (isdigit c) eqn:Hc; [|done]. simpl. by rewrite Hc, IH.
Qed.

Lemma digits_of_all_digits text :
  Forall (λ c, isdigit c = true) (String.list_ascii_of_string (digits_of text)).
Proof.
  induction text as [|c text IH]; [constructor|]. simpl.
  destruct (isdigit c) eqn:Hc; [|done]. by constructor.
Qed.

Lemma digits_of_length text :
  (String.length (digits_of text) ≤ String.length text)%nat.
Proof.
  induction text as [|c text IH]; [done|]. simpl.
  destruct (isdigit c); simpl; lia.
Qed.

Lemma digits_of_fixpoint text :
  digits_of text = text
  ↔ Forall (λ c, isdigit c = true) (String.list_ascii_of_string text).
Proof.
  split.
  - intros <-. apply digits_of_all_digits.
  - induction text as [|c text IH]; [done|]. simpl.
    intros [Hc Ht]%Forall_cons. rewrite Hc. f_equal. by apply IH.
Qed.

(** X9: pasting sets the collection field to the characters of the
    clipboard text for which [isdigit] holds, in their order, and to
    nothing else; so the field holds digits only, is never longer than the
    text, equals the text exactly when the text is digits only, and pasting
    the field's own content changes nothing; the path and the status are
    untouched, and a clipboard that cannot be read leaves the form as it
    is. *)
Theorem paste_keeps_the_digits (text : string) (g : form) :
  let g' := paste_collection_id (Some text) g in
  String.list_ascii_of_string (collection_var g')
  = filter (λ c, isdigit c = true) (String.list_ascii_of_string text)
  ∧ Forall (λ c, isdigit c = true)
           (String.list_ascii_of_string (collection_var g'))
  ∧ (String.length (collection_var g') ≤ String.length text)%nat
  ∧ (collection_var g' = text
     ↔ Forall (λ c, isdigit c = true) (String.list_ascii_of_string text))
  ∧ paste_collection_id (Some (collection_var g')) g' = g'
  ∧ path_var g' = path_var g
  ∧ status_var g' = status_var g
  ∧ status_fg g' = status_fg g
  ∧ paste_collection_id None g = g.
Proof.
  simpl. split_and!; try done.
  - apply digits_of_filter.
  - apply digits_of_all_digits.
  - apply digits_of_length.
  - apply digits_of_fixpoint.
  - unfold paste_collection_id. simpl. by rewrite digits_of_idemp.
Qed.

(** Pasting the link of a workshop page leaves its id. *)
Example paste_workshop_link :
  collection_var
    (paste_collection_id
       (Some "https://steamcommunity.com/sharedfiles/filedetails/?id=2901234567")
       (Form "" "" StatusReady TEXT))
  = "2901234567".
Proof. reflexivity. Qed.

(** *** Writing piece by piece *)

Lemma translate_newlines_app sep s t :
  translate_newlines sep (s +:+ t)
  = translate_newlines sep s +:+ translate_newlines sep t.
Proof.
  induction s as [|c s IH]; [done|].
  rewrite string_app_cons. cbn [translate_newlines].
  by rewrite IH, string_app_assoc.
Qed.

Lemma utf8_encode_app s t :
  utf8_encode (s +:+ t) = utf8_encode s ++ utf8_encode t.
Proof.
  induction s as [|c s IH]; [done|].
  rewrite string_app_cons. cbn [utf8_encode]. by rewrite IH, app_assoc.
Qed.

Lemma encode_text_app rt s t :
  encode_text rt (s +:+ t) = encode_text rt s ++ encode_text rt t.
Proof.
  unfold encode_text. by rewrite translate_newlines_app, utf8_encode_app.
Qed.

Lemma writable_prefix_all rt chunks :
  forallb (λ c, negb (unencodable rt c)) chunks = true →
  writable_prefix rt chunks = chunks.
Proof.
  induction chunks as [|c chunks IH]; [done|]. simpl.
  destruct (unencodable rt c); [done|]. simpl. intros H. f_equal. auto.
Qed.

Lemma writable_prefix_short rt chunks :
  forallb (λ c, negb (unencodable rt c)) chunks = false →
  (length (writable_prefix rt chunks) < length chunks)%nat.
Proof.
  induction chunks as [|c chunks IH]; [done|]. simpl.
  destruct (unencodable rt c); simpl; [lia|]. intros H%IH. lia.
Qed.

Lemma writable_prefix_take rt chunks :
  writable_prefix rt chunks
  = take (length (writable_prefix rt chunks)) chunks.
Proof.
  induction chunks as [|c chunks IH]; [done|]. simpl.
  destruct (unencodable rt c); [done|]. simpl. by f_equal.
Qed.

Lemma alter_append_nil (f : string) (m : gmap string (list Byte.byte)) :
  alter (λ old, old ++ []) f m = m.
Proof.
  apply map_eq. intros i. rewrite lookup_alter. case_decide as Hi; [|done].
  subst. destruct (m !! i); simpl; [|done]. by rewrite app_nil_r.
Qed.

(** What a run of [f.write] calls over [chunks] does to an open file: the
    pieces before the first refused one are appended. *)
Lemma write_chunks rt f chunks w :
  let '(r, w') := for_each chunks (λ chunk _, file_write rt f chunk) () w in
  posts w' = posts w ∧ naps w' = naps w ∧ dirs (fs w') = dirs (fs w)
  ∧ files (fs w')
    = alter (λ old, old ++ encode_text rt
                             (foldr String.app "" (writable_prefix rt chunks)))
            f (files (fs w))
  ∧ r = if forallb (λ c, negb (unencodable rt c)) chunks
        then Ok () else Raise UnicodeEncodeError.
Proof.
  revert w. induction chunks as [|c chunks IH]; intros w.
  - simpl. split_and!; try done.
    change (encode_text rt "") with (@nil Byte.byte).
    by rewrite alter_append_nil.
  - cbn [for_each writable_prefix forallb]. run_M. unfold file_write at 1.
    destruct (unencodable rt c) eqn:Hc; simpl.
    + split_and!; try done.
      change (encode_text rt "") with (@nil Byte.byte).
      by rewrite alter_append_nil.
    + specialize (IH (World (posts w) (naps w)
        (Filesystem (dirs (fs w))
           (alter (λ old, old ++ utf8_encode
                                   (translate_newlines (os_linesep rt) c))
                  f (files (fs w)))))).
      destruct (for_each chunks _ _ _) as [r w'].
      destruct IH as (-> & -> & -> & -> & ->). simpl.
      split_and!; try done.
      rewrite alter_alter_eq. apply alter_ext. intros old _. simpl.
      by rewrite encode_text_app, app_assoc.
Qed.

Lemma config_chunks_text collection_id output_path :
  foldr String.app ""
    (json_chunks_indent2
       [("collection_id", collection_id); ("output_path", output_path)])
  = json_dumps_indent2
      [("collection_id", collection_id); ("output_path", output_path)].
Proof.
  unfold json_dumps_indent2, json_chunks_indent2, json_item.
  cbn [json_item_chunks foldr app fmap list_fmap String.concat fst snd].
  by rewrite !string_app_assoc, string_app_nil_r.
Qed.

Lemma json_dump_run rt d f w :
  let '(r, w') := json_dump rt d f w in
  posts w' = posts w ∧ naps w' = naps w ∧ dirs (fs w') = dirs (fs w)
  ∧ files (fs w')
    = alter (λ old, old ++ encode_text rt
               (foldr String.app ""
                  (writable_prefix rt (json_chunks_indent2 d))))
            f (files (fs w))
  ∧ r = if forallb (λ c, negb (unencodable rt c)) (json_chunks_indent2 d)
        then Ok () else Raise UnicodeEncodeError.
Proof. apply write_chunks. Qed.

(** [save_config], step by step. *)
Lemma save_config_run rt ps collection_id output_path w :
  let chunks :=
    json_chunks_indent2
      [("collection_id", collection_id); ("output_path", output_path)] in
  let '(r, w') := save_config rt ps collection_id output_path w in
  posts w' = posts w ∧ naps w' = naps w
  ∧ match r with
    | Ok _ =>
        dirs (fs w') = {[CONFIG_DIR rt ps]} ∪ dirs (fs w)
        ∧ files (fs w')
          = <[CONFIG_PATH rt ps :=
                config_bytes rt collection_id output_path]> (files (fs w))
    | Raise e =>
        (filesystem_error e = true ∧ files (fs w') = files (fs w))
        ∨ (e = UnicodeEncodeError
           ∧ (length (writable_prefix rt chunks) < length chunks)%nat
           ∧ files (fs w')
             = <[CONFIG_PATH rt ps :=
                   encode_text rt
                     (foldr String.app "" (writable_prefix rt chunks))]>
                 (files (fs w)))
    end.
Proof.
  intros chunks. unfold save_config, os_makedirs, open_w. run_M.
  assert (Hwrite : ∀ ds,
    let w0 := World (posts w) (naps w)
                (Filesystem ds (<[CONFIG_PATH rt ps := []]> (files (fs w)))) in
    let '(r, w') :=
      json_dump rt
        [("collection_id", collection_id); ("output_path", output_path)]
        (CONFIG_PATH rt ps) w0 in
    posts w' = posts w ∧ naps w' = naps w ∧ dirs (fs w') = ds
    ∧ match r with
      | Ok _ =>
          files (fs w')
          = <[CONFIG_PATH rt ps :=
                config_bytes rt collection_id output_path]> (files (fs w))
      | Raise e =>
          e = UnicodeEncodeError
          ∧ (length (writable_prefix rt chunks) < length chunks)%nat
          ∧ files (fs w')
            = <[CONFIG_PATH rt ps :=
                  encode_text rt
                    (foldr String.app "" (writable_prefix rt chunks))]>
                (files (fs w))
      end).
  { intros ds w0.
    pose proof (json_dump_run rt
      [("collection_id", collection_id); ("output_path", output_path)]
      (CONFIG_PATH rt ps) w0) as Hw.
    destruct (json_dump _ _ _ _) as [r w'].
    destruct Hw as (-> & -> & -> & Hfiles & ->).
    subst w0. cbn [posts naps fs dirs files] in *.
    rewrite alter_insert_eq, app_nil_l in Hfiles.
    fold chunks in Hfiles |- *.
    destruct (forallb _ chunks) eqn:Hall; split_and!; try done.
    - apply writable_prefix_all in Hall.
      rewrite Hfiles, Hall. unfold chunks.
      by rewrite config_chunks_text.
    - by apply writable_prefix_short. }
  destruct (bool_decide (CONFIG_DIR rt ps = "")); [by split_and!; try left|].
  destruct (bool_decide (CONFIG_DIR rt ps ∈ dirs (fs w))) eqn:Hdir.
  - destruct (bool_decide (CONFIG_PATH rt ps ∈ dirs (fs w)));
      [by split_and!; try left|].
    specialize (Hwrite (dirs (fs w))). cbv zeta in Hwrite.
    destruct (json_dump _ _ _ _) as [[[]|e] w'];
      destruct Hwrite as (-> & -> & Hd & Hw); split_and!; try done.
    + rewrite Hd. symmetry. apply subseteq_union_1_L.
      apply singleton_subseteq_l. by apply bool_decide_eq_true in Hdir.
    + by right.
  - destruct (bool_decide (CONFIG_DIR rt ps ∈ dom (files (fs w))));
      [by split_and!; try left|].
    cbn [posts naps fs dirs files].
    destruct (bool_decide (CONFIG_PATH rt ps
                           ∈ {[CONFIG_DIR rt ps]} ∪ dirs (fs w)));
      [by split_and!; try left|].
    specialize (Hwrite ({[CONFIG_DIR rt ps]} ∪ dirs (fs w))).
    cbv zeta in Hwrite. cbn [posts naps fs dirs files].
    destruct (json_dump _ _ _ _) as [[[]|e] w'];
      destruct Hwrite as (-> & -> & Hd & Hw); split_and!; try done.
    by right.
Qed.

(** X10: [save_config] issues no request and changes no file but
    [CONFIG_PATH]; when it returns, that file holds the JSON text of the
    two values (and nothing of what it held before) and [CONFIG_DIR]
    exists; when it raises, either [os.makedirs] or [open] failed and no
    file has changed, or [json.dump] met a piece the codec refuses and the
    file holds the pieces written before it, a part of the text only. *)
Theorem save_config_replaces_only_the_config (rt : runtime) (ps : process)
    (collection_id output_path : string) (w : world) :
  let chunks :=
    json_chunks_indent2
      [("collection_id", collection_id); ("output_path", output_path)] in
  let '(r, w') := save_config rt ps collection_id output_path w in
  posts w' = posts w
  ∧ naps w' = naps w
  ∧ delete (CONFIG_PATH rt ps) (files (fs w'))
    = delete (CONFIG_PATH rt ps) (files (fs w))
  ∧ match r with
    | Ok _ =>
        files (fs w') !! CONFIG_PATH rt ps
        = Some (config_bytes rt collection_id output_path)
        ∧ CONFIG_DIR rt ps ∈ dirs (fs w')
    | Raise e =>
        (filesystem_error e = true ∧ files (fs w') = files (fs w))
        ∨ (e = UnicodeEncodeError
           ∧ (length (writable_prefix rt chunks) < length chunks)%nat
           ∧ files (fs w') !! CONFIG_PATH rt ps
             = Some (encode_text rt
                       (foldr String.app "" (writable_prefix rt chunks))))
    end.
Proof.
  intros chunks.
  pose proof (save_config_run rt ps collection_id output_path w) as Hrun.
  cbv zeta in Hrun. fold chunks in Hrun.
  destruct (save_config _ _ _ _ _) as [[[]|e] w'].
  - destruct Hrun as (-> & -> & Hdirs & ->).
    split_and!; [done..|apply delete_insert_eq|apply lookup_insert_eq|].
    rewrite Hdirs. apply elem_of_union. left. by apply elem_of_singleton.
  - destruct Hrun as (-> & -> & [[He ->]|(-> & Hlen & ->)]).
    + split_and!; [done..|]. by left.
    + split_and!; [done..|apply delete_insert_eq|]. right.
      split_and!; [done..|]. apply lookup_insert_eq.
Qed.

(** A collection id with a lone surrogate: the file is left with the four
    pieces written before the value. *)
Example save_config_refused :
  let '(r, w') :=
    save_config posix_with_surrogate posix_process
      (String "255"%char "") "/srv/maps" fresh in
  r = Raise UnicodeEncodeError
  ∧ files (fs w') !! CONFIG_PATH posix_with_surrogate posix_process
    = Some (utf8_encode ("{" +:+ NL +:+ "  " +:+ DQ +:+ "collection_id"
                           +:+ DQ +:+ ": ")).
Proof. vm_compute. done. Qed.

Lemma generate_maplist_posts rt remote collection_id output_dir w :
  ∃ rest,
    posts (generate_maplist rt remote collection_id output_dir w).2
    = posts w ++ collection_request collection_id :: rest.
Proof.
  rewrite generate_maplist_run, get_collection_item_ids_run.
  destruct (ids_of _) as [ids|]; [|by exists []].
  rewrite get_published_file_details_run. cbn [posts naps fs].
  destruct (collect _ _ _ _) as [r m].
  set (rest := details_request <$> take m (batches ids)).
  exists rest. rewrite <-app_assoc. cbn [app].
  destruct r as [items|]; [|done].
  destruct (manifest_lines _ _) as [lines|]; [|done].
  destruct (save _ _ _ _) as [[p|e] w'] eqn:Hsave; cbn [snd].
  - by apply save_ok in Hsave as (_ & -> & _).
  - by apply save_raise in Hsave as (-> & _).
Qed.

(** X11: a click on Generate leaves both fields as they are; with an
    empty collection field it changes nothing in the world (no request, no
    file) and shows the "required" error in the error colour; with a
    non-empty one the first thing it does is the collection request for
    that id, and it ends either on "Done" in the success colour or on an
    error in the error colour. *)
Theorem generate_contacts_service_iff_id_given (rt : runtime) (ps : process)
    (remote : nat → request → outcome) (g : form) (w : world) :
  let '(g', w') := generate rt ps remote g w in
  collection_var g' = collection_var g
  ∧ path_var g' = path_var g
  ∧ if bool_decide (collection_var g = "")
    then w' = w ∧ status_var g' = StatusRequired ∧ status_fg g' = ERROR
    else head (issued w w') = Some (collection_request (collection_var g))
         ∧ ((∃ p, status_var g' = StatusDone p ∧ status_fg g' = SUCCESS)
            ∨ (∃ e, status_var g' = StatusError e ∧ status_fg g' = ERROR)).
Proof.
  unfold generate. case_bool_decide as Hid; [done|].
  cbn [collection_var path_var].
  destruct (generate_maplist_posts rt remote (collection_var g)
              (if bool_decide (path_var g = "")
               then os_path_dirname ps (argv0 ps) else path_var g) w)
    as [rest Hposts].
  destruct (generate_maplist _ _ _ _ _) as [[p|e] w1]; cbn [snd] in Hposts.
  - pose proof (save_config_run rt ps (collection_var g) (path_var g) w1)
      as Hsave. cbv zeta in Hsave.
    destruct (save_config _ _ _ _ _) as [[[]|e] w2];
      destruct Hsave as (Hp & _);
      cbn [collection_var path_var status_var status_fg];
      unfold issued; rewrite Hp, Hposts, drop_app_length;
      split_and!; eauto.
  - cbn [collection_var path_var status_var status_fg]. unfold issued.
    rewrite Hposts, drop_app_length. split_and!; eauto.
Qed.

(** X12: when Generate ends on "Done. Saved to: p", the collection field
    was not empty, [generate_maplist] returned [p], the manifest path under
    the folder typed (under the script's directory when the folder field is
    empty), and the configuration file then received the collection id and
    the folder field as typed, the empty string included. *)
Theorem generate_done_means_manifest_and_config_saved (rt : runtime)
    (ps : process) (remote : nat → request → outcome)
    (g g' : form) (w w' : world) (p : string) :
  generate rt ps remote g w = (g', w') →
  status_var g' = StatusDone p →
  status_fg g' = SUCCESS
  ∧ collection_var g ≠ ""
  ∧ p = os_path_join rt (output_dir_of ps g) "maplist.txt"
  ∧ ∃ w1,
      generate_maplist rt remote (collection_var g) (output_dir_of ps g) w
      = (Ok p, w1)
      ∧ files (fs w')
        = <[CONFIG_PATH rt ps :=
              config_bytes rt (collection_var g) (path_var g)]>
            (files (fs w1)).
Proof.
  unfold generate, output_dir_of. case_bool_decide as Hid.
  { by intros [= <- <-]. }
  cbn [collection_var path_var].
  destruct (generate_maplist _ _ _ _ _) as [[q|e] w1] eqn:Hrun;
    [|by intros [= <- <-]].
  pose proof (save_config_run rt ps (collection_var g) (path_var g) w1)
    as Hsave. cbv zeta in Hsave.
  destruct (save_config _ _ _ _ _) as [[[]|e] w2];
    [|by intros [= <- <-]].
  intros [= <- <-] [= ->]. cbn [status_fg].
  destruct Hsave as (_ & _ & _ & Hfiles).
  split_and!; [done..| |by exists w1].
  pose proof Hrun as Hrun'. rewrite generate_maplist_run in Hrun'.
  destruct (get_collection_item_ids _ _ _) as [[ids|] wa]; [|done].
  destruct (get_published_file_details _ _ _) as [[items|] wb]; [|done].
  destruct (manifest_lines _ _) as [lines|]; [|done].
  by apply save_ok in Hrun' as (-> & _).
Qed.

Lemma generate_done_means_manifest_and_config_saved_witness :
  let remote :=
    service (Reply 200 (Some (collection_doc ["1"])))
            (Reply 200 (Some (details_doc [member "Aztec" "1"]))) in
  let g := Form "2901234567" "" StatusReady TEXT in
  let run := generate posix posix_process remote g fresh in
  status_fg run.1 = SUCCESS
  ∧ collection_var g ≠ ""
  ∧ "/opt/maplist/maplist.txt"
    = os_path_join posix (output_dir_of posix_process g) "maplist.txt"
  ∧ ∃ w1,
      generate_maplist posix remote (collection_var g)
        (output_dir_of posix_process g) fresh
      = (Ok "/opt/maplist/maplist.txt", w1)
      ∧ files (fs run.2)
        = <[CONFIG_PATH posix posix_process :=
              config_bytes posix (collection_var g) (path_var g)]>
            (files (fs w1)).
Proof.
  intros remote g run.
  apply (generate_done_means_manifest_and_config_saved posix posix_process
           remote g run.1 fresh run.2 "/opt/maplist/maplist.txt").
  - apply surjective_pairing.
  - vm_compute. reflexivity.
Defined.

Lemma save_config_raise_not_fetch_error rt ps collection_id output_path w e w' :
  save_config rt ps collection_id output_path w = (Raise e, w') →
  fetch_or_build_error e = false.
Proof.
  intros Hsave.
  pose proof (save_config_run rt ps collection_id output_path w) as Hrun.
  cbv zeta in Hrun. rewrite Hsave in Hrun.
  destruct Hrun as (_ & _ & [[He _]|(-> & _)]); [|done]. by destruct e.
Qed.

(** X13: when Generate ends on an error, the collection field was not
    empty and the error shown is either the one [generate_maplist] raised,
    and then [save_config] was not called and the world is as
    [generate_maplist] left it, or the one [save_config] raised after
    [generate_maplist] had returned; and when it is an error of fetching or
    of building the lines, the filesystem is as it was before the click. *)
Theorem generate_error_comes_from_one_step (rt : runtime) (ps : process)
    (remote : nat → request → outcome)
    (g g' : form) (w w' : world) (e : exn) :
  generate rt ps remote g w = (g', w') →
  status_var g' = StatusError e →
  status_fg g' = ERROR
  ∧ collection_var g ≠ ""
  ∧ match generate_maplist rt remote (collection_var g)
            (output_dir_of ps g) w with
    | (Raise e', w1) => e' = e ∧ w' = w1
    | (Ok p, w1) =>
        save_config rt ps (collection_var g) (path_var g) w1 = (Raise e, w')
    end
  ∧ (fetch_or_build_error e = true → fs w' = fs w).
Proof.
  unfold generate, output_dir_of. case_bool_decide as Hid.
  { by intros [= <- <-]. }
  cbn [collection_var path_var].
  destruct (generate_maplist _ _ _ _ _) as [[q|e'] w1] eqn:Hrun.
  - destruct (save_config _ _ _ _ _) as [[[]|e'] w2] eqn:Hsave;
      [by intros [= <- <-]|].
    intros [= <- <-] [= ->]. cbn [status_fg].
    apply save_config_raise_not_fetch_error in Hsave.
    split_and!; [done..|congruence].
  - intros [= <- <-] [= ->]. cbn [status_fg].
    split_and!; [done..|]. intros He.
    by eapply generate_maplist_fetch_error_fs.
Qed.

Lemma generate_error_comes_from_one_step_witness :
  let remote :=
    service (Reply 200 (Some (collection_doc ["1"])))
            (Reply 200 (Some (details_doc
               [PyDict {["title" := PyInt 7]}]))) in
  let g := Form "2901234567" "" StatusReady TEXT in
  let run := generate posix posix_process remote g fresh in
  status_fg run.1 = ERROR
  ∧ collection_var g ≠ ""
  ∧ match generate_maplist posix remote (collection_var g)
            (output_dir_of posix_process g) fresh with
    | (Raise e', w1) => e' = AttributeError ∧ run.2 = w1
    | (Ok p, w1) =>
        save_config posix posix_process (collection_var g) (path_var g) w1
        = (Raise AttributeError, run.2)
    end
  ∧ (fetch_or_build_error AttributeError = true → fs run.2 = fs fresh).
Proof.
  intros remote g run.
  apply (generate_error_comes_from_one_step posix posix_process remote g
           run.1 fresh run.2 AttributeError).
  - apply surjective_pairing.
  - vm_compute. reflexivity.
Defined.
